(** * pyfinder: the search core ([search/core.py])

    A shallow embedding of [SearchEngine] and its [search] method, with the
    properties of the specification that concern it.

    Conventions of the embedding.
    - A Python number (similarity score, threshold, weight) is the rational
      [Q] that the finite float or the integer denotes, and comparisons are
      those of the rationals.  Floating-point addition rounds: it is a
      parameter [add] of the engine, of which nothing is assumed, so every
      statement holds for binary64 addition as for exact addition.  Integers
      used as counts or limits are [Z] or [nat].
    - A dataset record is a finite map from attribute names to text values;
      [getattr] is a lookup that raises [AttributeError] on a missing name.
    - Exceptions and the observable accesses of a call (starting the
      iteration over the dataset, each record it yields, its exhaustion,
      attribute reads, matcher invocations) are carried by a small
      error-and-trace monad [M].
    - The helpers of [search.utils] are not part of this development's source
      tree; the engine is parameterised over them. *)

From Stdlib Require Import ZArith QArith Qabs Lia List Permutation Sorted Ascii String.
From Stdlib Require Floats.
From stdpp Require Import base option list strings gmap.

Local Open Scope Z_scope.

(** ** Python values *)

(** Truth value testing ([__bool__] / [__len__]) of the values that appear on
    the left of an [or]. *)
Class Truthy (A : Type) := truth : A → bool.

#[export] Instance Z_truthy : Truthy Z := λ z, negb (z =? 0).
#[export] Instance Q_truthy : Truthy Q := λ q, negb (Qeq_bool q 0).
#[export] Instance list_truthy {A} : Truthy (list A) :=
  λ l, match l with [] => false | _ :: _ => true end.
#[export] Instance fun_truthy {A B} : Truthy (A → B) := λ _, true.
(** [None] is false; any other object follows its own rule. *)
#[export] Instance option_truthy {A} `{Truthy A} : Truthy (option A) :=
  λ o, match o with Some v => truth v | None => false end.

(** [x or y] where both operands have the same type. *)
Definition py_or {A} `{Truthy A} (x y : A) : A := if truth x then x else y.

(** [x or d] where [x] is an optional argument (default [None]) and [d] is a
    value that is always present. *)
Definition or_default {A} `{Truthy A} (x : option A) (d : A) : A :=
  match x with
  | Some v => if truth v then v else d
  | None => d
  end.

(** [sum(values)]: left fold of the addition, starting from [0], which is
    how the built-in accumulates.  (From version 3.12 on the interpreter
    compensates the rounding errors of a sum of floats; the fold with the
    plain float addition is the built-in of the earlier versions.) *)
Definition py_sum (add : Q → Q → Q) (values : list Q) : Q :=
  fold_left add values 0%Q.

(** [a < b] on numbers. *)
Definition Qlt_bool (a b : Q) : bool := negb (Qle_bool b a).

(** [max(items, key=key)]: the first item whose key is maximal; [None] stands
    for the [ValueError] raised on an empty sequence. *)
Definition py_max {A} (key : A → Q) (items : list A) : option A :=
  match items with
  | [] => None
  | x :: rest =>
      Some (fold_left (λ best y, if Qlt_bool (key best) (key y) then y else best)
                      rest x)
  end.

(** [list(range(n, 0, -1))] *)
Fixpoint ramp (n : nat) : list Q :=
  match n with
  | O => []
  | S k => inject_Z (Z.of_nat n) :: ramp k
  end.

(** [dict(pairs)]: later pairs overwrite earlier ones. *)
Definition py_dict {V} (pairs : list (string * V)) : gmap string V :=
  fold_left (λ d kv, <[kv.1 := kv.2]> d) pairs ∅.

(** ** Exceptions, events and the monad *)

Inductive exn : Type :=
  | ValueError (msg : string)
  | AttributeError (name : string)
  | KeyError (key : string).

(** A dataset record: attribute name to text value. *)
Abbreviation obj := (gmap string string).

Inductive event : Type :=
  | EvIter                                (** a [for] statement took the iterator of the dataset *)
  | EvNext (o : obj)                      (** the dataset iterator yielded [o] *)
  | EvStop                                (** the dataset iterator was found exhausted *)
  | EvGetattr (o : obj) (name : string)   (** [getattr(o, name)] *)
  | EvMatch (query value : string).       (** [matcher(query, value)] *)

Definition M (A : Type) : Type := list event * (exn + A).

Definition ret {A} (a : A) : M A := ([], inr a).
Definition raise {A} (e : exn) : M A := ([], inl e).
Definition tell (ev : event) : M unit := ([ev], inr tt).
Definition bind {A B} (f : A → M B) (m : M A) : M B :=
  match m with
  | (t, inl e) => (t, inl e)
  | (t, inr a) => let '(t', r) := f a in (t ++ t', r)
  end.

#[export] Instance M_ret : MRet M := @ret.
#[export] Instance M_bind : MBind M := @bind.

Definition trace {A} (m : M A) : list event := fst m.
Definition outcome {A} (m : M A) : exn + A := snd m.

(** [for x in items: state = body(x, state)] *)
Fixpoint for_each {A S} (items : list A) (body : A → S → M S) (s : S) : M S :=
  match items with
  | [] => ret s
  | x :: rest => s' ← body x s; for_each rest body s'
  end.

(** [for obj in dataset: matches = body(obj, matches)], starting from no
    matches: the iterator of the dataset is taken, the body runs on each
    record it yields, and the loop ends when it is exhausted. *)
Definition scan {S} (dataset : list obj) (body : obj → list S → M (list S))
  : M (list S) :=
  tell EvIter;;
  matches ← for_each dataset body [];
  tell EvStop;;
  ret matches.

(** [getattr(o, name)] *)
Definition getattr (o : obj) (name : string) : M string :=
  tell (EvGetattr o name);;
  match o !! name with
  | Some v => ret v
  | None => raise (AttributeError name)
  end.

(** [d[key]] on a dictionary *)
Definition getitem {V} (d : gmap string V) (key : string) : M V :=
  match d !! key with
  | Some v => ret v
  | None => raise (KeyError key)
  end.

(** [matcher(query, value)]; the matcher is a pure function, the call is
    recorded as a scoring event. *)
Definition call_matcher (matcher : string → string → Q) (query value : string) : M Q :=
  tell (EvMatch query value);; ret (matcher query value).

(** ** Match records and candidate results *)

(** [{'attr': attr, 'match': match}] *)
Record partial_match : Type := { p_attr : string; p_match : Q }.

(** [{'data': obj, 'match': match, 'rating': score, 'attr': attr}] *)
Record result : Type := { data : obj; match_ : Q; rating : Q; attr : string }.

Definition create_result (o : obj) (m score : Q) (a : string) : result :=
  {| data := o; match_ := m; rating := score; attr := a |}.

(** [match['rating'] += w] *)
Definition add_rating (add : Q → Q → Q) (m : result) (w : Q) : result :=
  {| data := data m; match_ := match_ m; rating := add (rating m) w; attr := attr m |}.

(** ** [list.sort(key=lambda m: m['rating'], reverse=True)]

    The built-in sort is stable, also under [reverse=True]: the result is in
    descending key order and items with equal keys keep their original
    relative order.  Insertion from the right realises exactly this: a new
    head goes in front of the first item whose key is not greater. *)
Fixpoint insert_desc (x : result) (l : list result) : list result :=
  match l with
  | [] => [x]
  | y :: l' =>
      if Qle_bool (rating y) (rating x) then x :: y :: l'
      else y :: insert_desc x l'
  end.

Fixpoint sort_desc (l : list result) : list result :=
  match l with
  | [] => []
  | x :: l' => insert_desc x (sort_desc l')
  end.

(** ** The engine *)

Record SearchEngine : Type := {
  self_attributes : option (list string);
  self_limit : Z;
  self_threshold : Q;
  self_weights : option (list Q);
  self_matcher : string → string → Q
}.

(** [SearchEngine.select_results] *)
Definition select_results (matches : list result) (threshold : Q) (limit : Z)
  : list obj :=
  let matches := sort_desc matches in
  let matches := if 0 <? limit then firstn (Z.to_nat limit) matches else matches in
  map data matches.

(** The call-time configuration after lines 120-124 of [search]. *)
Record config : Type := {
  cfg_attributes : option (list string);
  cfg_weights : option (list Q);
  cfg_limit : Z;
  cfg_threshold : Q;
  cfg_matcher : string → string → Q
}.

Definition resolve (self : SearchEngine)
    (attributes : option (list string)) (limit : option Z) (threshold : option Q)
    (weights : option (list Q)) (matcher : option (string → string → Q)) : config :=
  {| cfg_attributes := py_or attributes (self_attributes self);
     cfg_weights := py_or weights (self_weights self);
     cfg_limit := or_default limit (self_limit self);
     cfg_threshold := or_default threshold (self_threshold self);
     cfg_matcher := or_default matcher (self_matcher self) |}.

(** [len(x)] of a value that has passed a truth test (so is not [None]). *)
Definition len {A} (x : option (list A)) : nat := length (default [] x).

(** Lines 151-154: the weights handed to [utils.normalize]. *)
Definition raw_weights (attributes : list string) (weights : option (list Q))
  : list Q :=
  if negb (truth weights) || negb (len weights =? length attributes)%nat
  then ramp (length attributes)
  else default [] weights.

(** Body of the single-attribute loop (lines 143-146). *)
Definition single_body (matcher : string → string → Q) (query attr_name : string)
    (threshold : Q) (o : obj) (matches : list result) : M (list result) :=
  tell (EvNext o);;
  attrval ← getattr o attr_name;
  m ← call_matcher matcher query attrval;
  if Qle_bool threshold m
  then ret (matches ++ [create_result o m m attr_name])
  else ret matches.

(** Lines 141-146. *)
Definition single_scan (matcher : string → string → Q) (query attr_name : string)
    (threshold : Q) (dataset : list obj) : M (list result) :=
  scan dataset (single_body matcher query attr_name threshold).

(** Body of the inner loop over the attributes (lines 162-168). *)
Definition partial_body (matcher : string → string → Q) (query : string) (o : obj)
    (a : string) (partial_matches : list partial_match) : M (list partial_match) :=
  attrval ← getattr o a;
  if (String.length attrval =? 0)%nat then ret partial_matches
  else
    m ← call_matcher matcher query attrval;
    ret (partial_matches ++ [{| p_attr := a; p_match := m |}]).

(** Lines 160-168. *)
Definition collect_partial (matcher : string → string → Q) (query : string)
    (attributes : list string) (o : obj) : M (list partial_match) :=
  for_each attributes (partial_body matcher query o) [].

(** Body of the multi-attribute loop (lines 159-183). *)
Definition multi_body (add : Q → Q → Q) (matcher : string → string → Q)
    (query : string)
    (attributes : list string) (weights : gmap string Q) (threshold : Q)
    (o : obj) (matches : list result) : M (list result) :=
  tell (EvNext o);;
  partial_matches ← collect_partial matcher query attributes o;
  match py_max p_match partial_matches with
  | None => raise (ValueError "max() arg is an empty sequence")
  | Some best =>
      let value := p_match best in
      if Qle_bool threshold value then
        let a := p_attr best in
        let tot_value := add value (py_sum add (map p_match partial_matches)) in
        w ← getitem weights a;
        let score := add tot_value w in
        ret (matches ++ [create_result o value score a])
      else ret matches
  end.

Definition multi_scan (add : Q → Q → Q) (matcher : string → string → Q)
    (query : string) (attributes : list string) (weights : gmap string Q)
    (threshold : Q) (dataset : list obj) : M (list result) :=
  scan dataset (multi_body add matcher query attributes weights threshold).

(** Lines 195-196: the second pass over the candidates. *)
Definition adjust (add : Q → Q → Q) (adjusted_weights : gmap string Q)
    (matches : list result) : M (list result) :=
  for_each matches
    (λ m done, w ← getitem adjusted_weights (attr m);
               ret (done ++ [add_rating add m w]))
    [].

Section Engine.
(** The addition of two numbers, as the interpreter performs it. *)
Variable add : Q → Q → Q.
(** The helpers of [search.utils] that [core.py] calls. *)
Variable tokenize : string → list string.
Variable normalize : list Q → list Q.
Variable generate_weights : list string → list Q.
Variable generate_weights_from_matches : list result → gmap string Q.

(** [SearchEngine.__init__] *)
Definition init (attributes : option (list string)) (limit : Z) (threshold : Q)
    (weights : option (list Q)) (matcher : string → string → Q) : SearchEngine :=
  {| self_attributes := attributes;
     self_limit := limit;
     self_threshold := threshold;
     self_weights :=
       if truth attributes then
         if negb (truth weights) || negb (len attributes =? len weights)%nat
         then Some (generate_weights (default [] attributes))
         else weights
       else weights;
     self_matcher := matcher |}.

(** Lines 150-198: the multi-attribute path. *)
Definition multi_search (c : config) (query : string) (dataset : list obj)
    (attributes : list string) : M (list obj) :=
  let weights := raw_weights attributes (cfg_weights c) in
  let weights := normalize weights in
  let weights := py_dict (zip attributes weights) in
  matches ← multi_scan add (cfg_matcher c) query attributes weights
              (cfg_threshold c) dataset;
  let adjusted_weights := generate_weights_from_matches matches in
  matches ← adjust add adjusted_weights matches;
  ret (select_results matches (cfg_threshold c) (cfg_limit c)).

(** [SearchEngine.search] *)
Definition search (self : SearchEngine) (query : string) (dataset : list obj)
    (attributes : option (list string)) (limit : option Z) (threshold : option Q)
    (weights : option (list Q)) (matcher : option (string → string → Q))
  : M (list obj) :=
  let c := resolve self attributes limit threshold weights matcher in
  if negb (truth (cfg_attributes c))
  then raise (ValueError "Missing attributes to search into.")
  else
    let attributes := default [] (cfg_attributes c) in
    if (length (tokenize query) =? 0)%nat then ret []
    else if (length attributes =? 1)%nat then
      let attr_name := nth 0 attributes ""%string in
      matches ← single_scan (cfg_matcher c) query attr_name (cfg_threshold c) dataset;
      ret (select_results matches (cfg_threshold c) (cfg_limit c))
    else multi_search c query dataset attributes.

(** [SearchEngine.__call__] *)
Definition call (self : SearchEngine) (query : string) (dataset : list obj)
    (attributes : option (list string)) (limit : option Z) (threshold : option Q)
    (weights : option (list Q)) (matcher : option (string → string → Q))
  : M (list obj) :=
  search self query dataset attributes limit threshold weights matcher.
End Engine.

(** ** Binary64 arithmetic on the rationals

    A finite float denotes a rational.  [round64] maps a rational to the
    binary64 value nearest to it (ties to the even significand, gradual
    underflow; the overflow to infinity is left out), so [add64] and [div64]
    are the addition and the division of finite floats. *)

Definition round_half_even (num den : Z) : Z :=
  let m := num / den in
  let r := num mod den in
  match 2 * r ?= den with
  | Lt => m
  | Gt => m + 1
  | Eq => if Z.even m then m else m + 1
  end.

Definition round64 (q : Q) : Q :=
  let n := Qnum q in
  let d := Zpos (Qden q) in
  if n =? 0 then 0%Q
  else
    let a := Z.abs n in
    let e1 := Z.log2 a - Z.log2 d - 52 in
    let scaled := if 0 <=? e1 then a / (d * 2 ^ e1) else (a * 2 ^ (- e1)) / d in
    let e := if scaled <? 2 ^ 52 then e1 - 1
             else if 2 ^ 53 <=? scaled then e1 + 1 else e1 in
    let e := Z.max e (-1074) in
    let m := if 0 <=? e then round_half_even a (d * 2 ^ e)
             else round_half_even (a * 2 ^ (- e)) d in
    let v := if 0 <=? e then inject_Z (m * 2 ^ e)
             else Qmake m (Z.to_pos (2 ^ (- e))) in
    Qred (if n <? 0 then Qopp v else v).

Definition add64 (a b : Q) : Q := round64 (a + b).
Definition div64 (a b : Q) : Q := round64 (a / b).

(** The rational that a primitive float denotes (zero for what is not
    finite), and the float [m * 2^e] for a significand below [2^53]: used to
    compare [add64] and [div64] with the primitive operations. *)
Definition float_to_Q (f : PrimFloat.float) : Q :=
  match FloatOps.Prim2SF f with
  | SpecFloat.S754_finite s m e =>
      let v := if 0 <=? e then inject_Z (Zpos m * 2 ^ e)
               else Qmake (Zpos m) (Z.to_pos (2 ^ (- e))) in
      Qred (if s then Qopp v else v)
  | _ => 0%Q
  end.

Definition float_of (m e : Z) : PrimFloat.float :=
  let f := FloatOps.Z.ldexp (PrimFloat.of_uint63 (Uint63.of_Z (Z.abs m))) e in
  if m <? 0 then PrimFloat.opp f else f.

Definition Q_of (m e : Z) : Q :=
  Qred (if 0 <=? e then inject_Z (m * 2 ^ e) else Qmake m (Z.to_pos (2 ^ (- e)))).

(** Pairs of floats [m1 * 2^e1] and [m2 * 2^e2]: the floats written [0.1]
    and [0.2], cases of rounding up, down and to even, operands of unlike
    sign, and subnormal numbers. *)
Definition float_tests : list (Z * Z * Z * Z) :=
  [(7205759403792794, -56, 7205759403792794, -55);
   (3602879701896397, -54, 3152519739159347, -52);
   (1, 0, 1, -53); (1, 0, 3, -53);
   (9007199254740991, 0, 1, 0); (9007199254740991, 0, 1, -1);
   (-5, 3, 7, -60); (1, -1074, 1, -1074); (3, -1074, 1, -1073);
   (1, -1060, 3, -1074)].

(** [add64] and [div64] give what the primitive operations give on a pair. *)
Definition float_agrees (t : Z * Z * Z * Z) : bool :=
  let '(m1, e1, m2, e2) := t in
  Qeq_bool (float_to_Q (PrimFloat.add (float_of m1 e1) (float_of m2 e2)))
           (add64 (Q_of m1 e1) (Q_of m2 e2))
  && Qeq_bool (float_to_Q (PrimFloat.div (float_of m1 e1) (float_of m2 e2)))
              (div64 (Q_of m1 e1) (Q_of m2 e2)).

(** ** The helpers of [search.utils], from their description *)

(** Modelled from the spec: [utils.normalize] is not in the source tree.
    Each value is divided by the sum of all values; when the sum is zero the
    result is the uniform distribution [1/n].  The addition and the division
    are those of the arithmetic in use. *)
Definition normalize_spec (add div : Q → Q → Q) (values : list Q) : list Q :=
  let s := py_sum add values in
  if Qeq_bool s 0
  then map (λ _, div 1%Q (inject_Z (Z.of_nat (length values)))) values
  else map (λ v, div v s) values.

(** Modelled from the spec: [utils.normalize] in exact arithmetic. *)
Definition normalize_exact : list Q → list Q := normalize_spec Qplus Qdiv.

(** Modelled from the spec: [utils.normalize] in binary64 arithmetic. *)
Definition normalize64 : list Q → list Q := normalize_spec add64 div64.

(** The tolerance [2^-40] within which a sum of floats is taken to be one. *)
Definition tolerance : Q := 1 # 1099511627776.

(** The ramp of [n] weights, normalised in binary64, has [n] entries that
    are not negative and that sum to one within the tolerance. *)
Definition ramp64_ok (n : nat) : bool :=
  let ws := normalize64 (ramp n) in
  (length ws =? n)%nat
  && Qle_bool (Qabs (py_sum add64 ws - 1)) tolerance
  && forallb (Qle_bool 0) ws.

(** Modelled from the spec: [utils.generate_weights] is not in the source
    tree.  The default weights are the descending integer ramp over the
    attribute order. *)
Definition generate_weights_spec (attributes : list string) : list Q :=
  ramp (length attributes).

(** Modelled from the spec: part of [utils.generate_weights_from_matches],
    which is not in the source tree.  The number of candidates whose best
    attribute is [a]. *)
Definition count_attr (a : string) (matches : list result) : Q :=
  inject_Z (Z.of_nat (length (List.filter (λ m, String.eqb (attr m) a) matches))).

(** Modelled from the spec: [utils.generate_weights_from_matches] is not in
    the source tree.  For each attribute that is the best attribute of some
    candidate, taken once, the number of such candidates; the counts are
    normalised like the static weights. *)
Definition generate_weights_from_matches_spec (add div : Q → Q → Q)
    (matches : list result) : gmap string Q :=
  let names := remove_dups (map attr matches) in
  py_dict (zip names
             (normalize_spec add div (map (λ a, count_attr a matches) names))).

(** Modelled from the spec: part of [utils.tokenize], which is not in the
    source tree.  Lowercasing of one character. *)
Definition lower (c : ascii) : ascii :=
  let n := nat_of_ascii c in
  if (65 <=? n)%nat && (n <=? 90)%nat then ascii_of_nat (n + 32) else c.

(** Modelled from the spec: part of [utils.tokenize].  The characters that
    make up a term. *)
Definition is_letter (c : ascii) : bool :=
  let n := nat_of_ascii c in (97 <=? n)%nat && (n <=? 122)%nat.

(** Modelled from the spec: part of [utils.tokenize].  The lowercased input
    split at every character that is not a letter; [cur] is the term being
    read. *)
Fixpoint split_terms (s : string) (cur : string) : list string :=
  match s with
  | EmptyString => [cur]
  | String c s' =>
      let c := lower c in
      if is_letter c then split_terms s' (cur +:+ String c EmptyString)
      else cur :: split_terms s' EmptyString
  end.

(** Modelled from the spec: part of [utils.tokenize].  The stop words that
    the description names. *)
Definition stop_words : list string :=
  ["a"; "is"; "and"; "the"; "be"]%string.

(** Modelled from the spec: [utils.tokenize] is not in the source tree.
    The input is lowercased and split into terms; terms shorter than three
    characters and stop words are dropped, order and duplicates are kept.
    The description splits at non-alphanumeric characters; the fixture of
    [tests/test_search_utils.py] drops the term [123], so digits separate
    terms here as well. *)
Definition tokenize_spec (s : string) : list string :=
  List.filter
    (λ w, (3 <=? String.length w)%nat && negb (existsb (String.eqb w) stop_words))
    (split_terms s EmptyString).

(** ** Vocabulary of the properties *)

Definition descending (l : list result) : Prop :=
  StronglySorted (λ a b, (rating b <= rating a)%Q) l.

(** The candidates whose rating equals [r], in list order. *)
Definition rated (r : Q) (l : list result) : list result :=
  List.filter (λ m, Qeq_bool (rating m) r) l.

(** [l'] keeps, for every rating, the relative order that [l] has. *)
Definition stable (l' l : list result) : Prop := ∀ r, rated r l' = rated r l.

(** What one record contributes: its candidate when the score reaches the
    threshold. *)
Definition single_candidate (matcher : string → string → Q) (query attr_name : string)
    (threshold : Q) (o : obj) : option result :=
  v ← o !! attr_name;
  let m := matcher query v in
  if Qle_bool threshold m then Some (create_result o m m attr_name) else None.

(** The matcher's score for the value of [attr_name] in a record that has it. *)
Definition score_of (matcher : string → string → Q) (query attr_name : string)
    (o : obj) : Q :=
  matcher query (default EmptyString (o !! attr_name)).

(** The first requested attribute that a record lacks. *)
Fixpoint first_missing (o : obj) (attributes : list string) : option string :=
  match attributes with
  | [] => None
  | a :: rest =>
      match o !! a with
      | None => Some a
      | Some _ => first_missing o rest
      end
  end.

(** The match record of one attribute: none for an empty value. *)
Definition partial_of (matcher : string → string → Q) (query : string) (o : obj)
    (a : string) : option partial_match :=
  v ← o !! a;
  if (String.length v =? 0)%nat then None
  else Some {| p_attr := a; p_match := matcher query v |}.

(** The dictionary of static weights that the scorer uses (lines 156-157). *)
Definition weights_of (normalize : list Q → list Q) (c : config)
    (attributes : list string) : gmap string Q :=
  py_dict (zip attributes (normalize (raw_weights attributes (cfg_weights c)))).

(** The candidate [m] was built from the record [o]: it refers to [o], and
    its match is the matcher's score, at least the threshold, of the value of
    its attribute, one of the requested ones. *)
Definition candidate_of (matcher : string → string → Q) (query : string)
    (attributes : list string) (threshold : Q) (o : obj) (m : result) : Prop :=
  data m = o
  ∧ ∃ a v, In a attributes ∧ o !! a = Some v
           ∧ match_ m = matcher query v ∧ (threshold <= match_ m)%Q.

(** What one record contributes in the multi-attribute path: its candidate
    when the best match record reaches the threshold (and the best attribute
    has a static weight). *)
Definition multi_candidate (add : Q → Q → Q) (matcher : string → string → Q)
    (query : string) (attributes : list string) (weights : gmap string Q)
    (threshold : Q) (o : obj) : option result :=
  let pm := omap (partial_of matcher query o) attributes in
  best ← py_max p_match pm;
  if Qle_bool threshold (p_match best) then
    w ← weights !! p_attr best;
    Some (create_result o (p_match best)
            (add (add (p_match best) (py_sum add (map p_match pm))) w)
            (p_attr best))
  else None.

(** The attribute of the first candidate that has no adjusted weight. *)
Fixpoint first_unweighted (adjusted_weights : gmap string Q) (matches : list result)
  : option string :=
  match matches with
  | [] => None
  | m :: rest =>
      match adjusted_weights !! attr m with
      | None => Some (attr m)
      | Some _ => first_unweighted adjusted_weights rest
      end
  end.

(** A record that the multi-attribute loop can score: it exposes every
    requested attribute and at least one of the values is not empty. *)
Definition well_formed (attributes : list string) (o : obj) : Prop :=
  (∀ a, In a attributes → is_Some (o !! a))
  ∧ ∃ a v, In a attributes ∧ o !! a = Some v ∧ v ≠ EmptyString.

(** An event that is not a matcher call on another query or on an empty
    value. *)
Definition sound_event (query : string) (ev : event) : Prop :=
  match ev with
  | EvMatch q v => q = query ∧ v ≠ EmptyString
  | _ => True
  end.

(** The accesses of the single-attribute loop for one record that has the
    attribute: the record is taken from the dataset, the attribute is read
    and its value is matched. *)
Definition single_events (query attr_name : string) (o : obj) : list event :=
  [EvNext o; EvGetattr o attr_name;
   EvMatch query (default EmptyString (o !! attr_name))].

(** The steps of the iteration over the dataset: taking its iterator, each
    record that the iterator yields, and finding it exhausted. *)
Definition is_iteration (ev : event) : bool :=
  match ev with
  | EvIter | EvNext _ | EvStop => true
  | _ => false
  end.

(** What a trace shows of the iteration over the dataset, in order. *)
Definition iteration (t : list event) : list event := List.filter is_iteration t.

(** An event that is no step of the iteration. *)
Definition quiet (ev : event) : Prop := is_iteration ev = false.

(** ** Sample data *)

Module Sample.
Local Open Scope string_scope.

(** A matcher in the style of the spec's fixtures: 1 when the query occurs
    as a term of the value, 1/2 when the value is non-empty otherwise. *)
Definition term_match (query value : string) : Q :=
  if existsb (String.eqb query) (split_terms value EmptyString) then 1%Q
  else (1 # 2)%Q.

Definition john : obj := {[ "name" := "john doe" ]}.
Definition jane : obj := {[ "name" := "jane" ]}.
Definition johnny : obj := {[ "name" := "john smith" ]}.
Definition nameless : obj := {[ "category" := "generic" ]}.

Definition item_a : obj := <["name" := "plain item"]> {[ "category" := "awesome" ]}.
Definition item_b : obj := <["name" := "awesome item"]> {[ "category" := "generic" ]}.
Definition blank : obj := <["name" := ""]> {[ "category" := "" ]}.
Definition twin : obj := <["name" := "awesome"]> {[ "category" := "awesome" ]}.

(** Three candidates of a single-attribute scan, in scan order. *)
Definition ranked : list result :=
  [create_result jane (1 # 2)%Q (1 # 2)%Q "name";
   create_result john 1%Q 1%Q "name";
   create_result johnny (3 # 4)%Q (3 # 4)%Q "name"].

(** The helpers in binary64 arithmetic, and the engine with them. *)
Definition adjusted64 := generate_weights_from_matches_spec add64 div64.
Definition search_spec := search add64 tokenize_spec normalize64 adjusted64.
Definition init_spec := init generate_weights_spec.

(** [SearchEngine(['name'], limit=1, threshold=3/4, matcher=term_match)] *)
Definition by_name : SearchEngine :=
  init_spec (Some ["name"]) 1 (3 # 4)%Q None term_match.

(** [SearchEngine(['name', 'category'], weights=[1, 5], ...)] *)
Definition weighted : SearchEngine :=
  init_spec (Some ["name"; "category"]) (-1) (3 # 4)%Q (Some [1; 5]%Q) term_match.

(** [SearchEngine()] with no attributes *)
Definition bare : SearchEngine :=
  init_spec None (-1) (3 # 4)%Q None term_match.

(** A matcher whose scores are the floats written [0.1] to [0.9]: the first
    character of the value is the digit of the tenths. *)
Definition tenths_match (query value : string) : Q :=
  match value with
  | String c _ => round64 (inject_Z (Z.of_nat (nat_of_ascii c - 48)) / 10)
  | EmptyString => 0%Q
  end.


(** [SearchEngine(['name', 'category'], threshold=0.5, weights=[1, 1],
    matcher=tenths_match)] *)
Definition even : SearchEngine :=
  init_spec (Some ["name"; "category"]) (-1) (1 # 2)%Q (Some [1; 1]%Q) tenths_match.
End Sample.

(** * Properties *)

(** The fixture of [TestUtils.test_tokenize]. *)
Example test_tokenize :
  tokenize_spec "This is a string, and should be tokenized! 123"
  = ["this"; "string"; "should"; "tokenized"]%string.
Proof. vm_compute. reflexivity. Qed.

(** [add64] and [div64] agree with the addition and the division of the
    primitive floats on the test pairs. *)
Example binary64_agrees : forallb float_agrees float_tests = true.
Proof. vm_compute. reflexivity. Qed.

(** The floats written [0.1] and [0.2] add up to [0.30000000000000004],
    the float next above the one written [0.3]. *)
Example tenth_plus_fifth :
  add64 (round64 (1 # 10)) (round64 (2 # 10)) = Q_of 5404319552844596 (-54)
  ∧ round64 (3 # 10) = Q_of 5404319552844595 (-54).
Proof. split; vm_compute; reflexivity. Qed.

(** ** The monad *)

Lemma bind_ret {A B} (a : A) (f : A → M B) : (ret a ≫= f) = f a.
Proof. unfold mbind, M_bind, bind, ret. destruct (f a). reflexivity. Qed.

Lemma bind_raise {A B} (e : exn) (f : A → M B) : (raise e ≫= f) = raise e.
Proof. reflexivity. Qed.

Lemma outcome_bind {A B} (m : M A) (f : A → M B) :
  outcome (m ≫= f) =
  match outcome m with inl e => inl e | inr a => outcome (f a) end.
Proof.
  destruct m as [t [e|a]]; simpl; [reflexivity|].
  unfold mbind, M_bind, bind. destruct (f a). reflexivity.
Qed.

Lemma outcome_bind_inr {A B} (m : M A) (f : A → M B) (b : B) :
  outcome (m ≫= f) = inr b → ∃ a, outcome m = inr a ∧ outcome (f a) = inr b.
Proof.
  rewrite outcome_bind. destruct (outcome m) as [e|a]; [discriminate |]. eauto.
Qed.

Lemma trace_bind {A B} (m : M A) (f : A → M B) :
  trace (m ≫= f) =
  trace m ++ match outcome m with inl _ => [] | inr a => trace (f a) end.
Proof.
  destruct m as [t [e|a]]; simpl.
  - unfold trace. simpl. rewrite app_nil_r. reflexivity.
  - unfold mbind, M_bind, bind. destruct (f a). reflexivity.
Qed.

Lemma outcome_tell {B} ev (k : M B) : outcome (tell ev;; k) = outcome k.
Proof. rewrite outcome_bind. reflexivity. Qed.

Lemma outcome_ret {A} (a : A) : outcome (ret a) = inr a.
Proof. reflexivity. Qed.

Lemma outcome_raise {A} (e : exn) : outcome (@raise A e) = inl e.
Proof. reflexivity. Qed.

(** ** Truth values *)

Lemma truth_attributes_false {A} (a : option (list A)) :
  truth a = false ↔ a = None ∨ a = Some [].
Proof.
  destruct a as [[|x l]|]; simpl; split; intros H; auto; try discriminate.
  - destruct H; discriminate.
Qed.

Lemma py_or_unresolved {A} (a d : option (list A)) :
  truth a = false → truth d = false → truth (py_or a d) = false.
Proof. intros Ha Hd. unfold py_or. rewrite Ha. exact Hd. Qed.

(** The engine is studied for an arbitrary addition. *)
Section Scoring.
Variable add : Q → Q → Q.

Local Abbreviation py_sum := (py_sum add).
Local Abbreviation add_rating := (add_rating add).
Local Abbreviation multi_body := (multi_body add).
Local Abbreviation multi_scan := (multi_scan add).
Local Abbreviation adjust := (adjust add).

Section Validation.
Variable tokenize : string → list string.
Variable normalize : list Q → list Q.
Variable generate_weights : list string → list Q.
Variable generate_weights_from_matches : list result → gmap string Q.

Local Abbreviation run := (search add tokenize normalize generate_weights_from_matches).
Local Abbreviation new := (init generate_weights).

Lemma search_unresolved self query dataset attributes limit threshold weights matcher :
  truth attributes = false → truth (self_attributes self) = false →
  run self query dataset attributes limit threshold weights matcher
  = raise (ValueError "Missing attributes to search into.").
Proof.
  intros Ha Hd. unfold search, resolve. cbn [cfg_attributes].
  rewrite (py_or_unresolved _ _ Ha Hd). reflexivity.
Qed.

(** C4. When the attribute list is absent or empty both at call time and
    at construction time, [search] raises the configuration error
    ([ValueError('Missing attributes to search into.')]) whatever the query
    and the dataset are, and it does so before any access or scoring: the
    trace of the call is empty and no list is returned. *)
Theorem search_missing_attributes_fails
    attributes0 limit0 threshold0 weights0 matcher0
    query dataset attributes limit threshold weights matcher :
  attributes = None ∨ attributes = Some [] →
  attributes0 = None ∨ attributes0 = Some [] →
  let r := run (new attributes0 limit0 threshold0 weights0 matcher0)
             query dataset attributes limit threshold weights matcher in
  outcome r = inl (ValueError "Missing attributes to search into.")
  ∧ trace r = [].
Proof.
  intros Ha Hd r. subst r.
  rewrite search_unresolved; [split; reflexivity | |].
  - apply truth_attributes_false, Ha.
  - apply truth_attributes_false, Hd.
Qed.

(** C10. The missing-attributes check comes before the empty-query
    short-circuit: when no attributes are resolvable and the query
    tokenizes to the empty sequence, [search] raises the configuration
    error and does not return the empty list. *)
Theorem missing_attributes_before_empty_query
    self query dataset attributes limit threshold weights matcher :
  truth (py_or attributes (self_attributes self)) = false →
  tokenize query = [] →
  run self query dataset attributes limit threshold weights matcher
  = ([], inl (ValueError "Missing attributes to search into."))
  ∧ outcome (run self query dataset attributes limit threshold weights matcher)
    ≠ inr [].
Proof.
  intros Hu _. unfold search, resolve. cbn [cfg_attributes].
  rewrite Hu. simpl. split; [reflexivity | discriminate].
Qed.

(** C3. When the resolved attribute list is non-empty and the query
    tokenizes to the empty sequence, [search] returns the empty list as a
    success, with an empty trace: the dataset is not iterated, no attribute
    is read and the matcher is not called. *)
Theorem empty_query_short_circuit
    self query dataset attributes limit threshold weights matcher attrs :
  py_or attributes (self_attributes self) = Some attrs → attrs ≠ [] →
  tokenize query = [] →
  run self query dataset attributes limit threshold weights matcher
  = ([], inr []).
Proof.
  intros Hr Hne Htok. unfold search, resolve. cbn [cfg_attributes].
  rewrite Hr, Htok. destruct attrs; [congruence | reflexivity].
Qed.
End Validation.

(** ** Field-by-field resolution of the configuration *)

(** C7 (as amended). Each field is resolved from its own call-time value and
    its own construction-time default only.  A call-time list that is not
    empty, a call-time number that is not zero and a call-time matcher
    override the default; a field that is not supplied, and a list supplied
    empty, fall back to the default.  The call-time values of the other
    fields never matter.  (Nothing is stated here of a number supplied as
    zero.) *)
Theorem resolve_field_by_field self a l t w m a' l' t' w' m' :
  let c := resolve self a l t w m in
  ((∀ x xs, a = Some (x :: xs) → cfg_attributes c = a)
   ∧ (a = None ∨ a = Some [] → cfg_attributes c = self_attributes self)
   ∧ cfg_attributes (resolve self a l' t' w' m') = cfg_attributes c)
  ∧ ((∀ v, l = Some v → v ≠ 0 → cfg_limit c = v)
     ∧ (l = None → cfg_limit c = self_limit self)
     ∧ cfg_limit (resolve self a' l t' w' m') = cfg_limit c)
  ∧ ((∀ v, t = Some v → ¬ (v == 0)%Q → cfg_threshold c = v)
     ∧ (t = None → cfg_threshold c = self_threshold self)
     ∧ cfg_threshold (resolve self a' l' t w' m') = cfg_threshold c)
  ∧ ((∀ x xs, w = Some (x :: xs) → cfg_weights c = w)
     ∧ (w = None ∨ w = Some [] → cfg_weights c = self_weights self)
     ∧ cfg_weights (resolve self a' l' t' w m') = cfg_weights c)
  ∧ ((∀ f, m = Some f → cfg_matcher c = f)
     ∧ (m = None → cfg_matcher c = self_matcher self)
     ∧ cfg_matcher (resolve self a' l' t' w' m) = cfg_matcher c).
Proof.
  intros c. subst c. unfold resolve. cbn [cfg_attributes cfg_limit cfg_threshold
    cfg_weights cfg_matcher].
  repeat split.
  - intros x xs ->. reflexivity.
  - intros [-> | ->]; reflexivity.
  - intros v -> Hv. unfold or_default, truth, Z_truthy.
    destruct (Z.eqb_spec v 0); [contradiction | reflexivity].
  - intros ->. reflexivity.
  - intros v -> Hv. unfold or_default, truth, Q_truthy.
    destruct (Qeq_bool v 0) eqn:E; [| reflexivity].
    apply Qeq_bool_iff in E. contradiction.
  - intros ->. reflexivity.
  - intros x xs ->. reflexivity.
  - intros [-> | ->]; reflexivity.
  - intros f ->. reflexivity.
  - intros ->. reflexivity.
Qed.

(** ** Result selection *)

Lemma insert_desc_perm x l : Permutation (insert_desc x l) (x :: l).
Proof.
  induction l as [|y l IH]; simpl; [reflexivity |].
  destruct (Qle_bool (rating y) (rating x)); [reflexivity |].
  rewrite IH. apply perm_swap.
Qed.

Lemma sort_desc_perm l : Permutation (sort_desc l) l.
Proof.
  induction l as [|x l IH]; simpl; [reflexivity |].
  rewrite insert_desc_perm. constructor. exact IH.
Qed.

Lemma insert_desc_descending x l : descending l → descending (insert_desc x l).
Proof.
  unfold descending.
  induction l as [|y l IH]; simpl; intros Hs.
  - constructor; constructor.
  - apply StronglySorted_inv in Hs as [Hl Hy].
    destruct (Qle_bool (rating y) (rating x)) eqn:E.
    + apply Qle_bool_iff in E.
      constructor; [constructor; assumption |].
      constructor; [exact E |].
      eapply Forall_impl; [exact Hy |]. simpl. intros z Hz.
      eapply Qle_trans; eassumption.
    + constructor; [apply IH, Hl |].
      assert (Hxy : (rating x <= rating y)%Q).
      { destruct (Qlt_le_dec (rating x) (rating y)) as [H | H].
        - apply Qlt_le_weak, H.
        - apply Qle_bool_iff in H. congruence. }
      eapply Permutation_Forall; [symmetry; apply insert_desc_perm |].
      constructor; assumption.
Qed.

Lemma sort_desc_descending l : descending (sort_desc l).
Proof.
  induction l as [|x l IH]; simpl.
  - constructor.
  - apply insert_desc_descending, IH.
Qed.

Lemma insert_desc_rated r x l : rated r (insert_desc x l) = rated r (x :: l).
Proof.
  unfold rated.
  induction l as [|y l IH]; [reflexivity |].
  cbn [insert_desc].
  destruct (Qle_bool (rating y) (rating x)) eqn:E; [reflexivity |].
  cbn [List.filter] in *. rewrite IH.
  destruct (Qeq_bool (rating x) r) eqn:Ex; [| reflexivity].
  destruct (Qeq_bool (rating y) r) eqn:Ey; [| reflexivity].
  apply Qeq_bool_iff in Ex, Ey.
  assert (H : Qle_bool (rating y) (rating x) = true).
  { apply Qle_bool_iff. rewrite Ex, Ey. apply Qle_refl. }
  congruence.
Qed.

Lemma sort_desc_stable l : stable (sort_desc l) l.
Proof.
  intros r. induction l as [|x l IH]; [reflexivity |].
  cbn [sort_desc]. rewrite insert_desc_rated.
  unfold rated in *. cbn [List.filter]. rewrite IH. reflexivity.
Qed.

Lemma rated_head x l : rated (rating x) (x :: l) = x :: rated (rating x) l.
Proof.
  unfold rated. cbn [List.filter].
  rewrite (proj2 (Qeq_bool_iff _ _) (Qeq_refl _)). reflexivity.
Qed.

Lemma rated_In r x l : In x (rated r l) → In x l.
Proof. unfold rated. intros H. apply List.filter_In in H. tauto. Qed.

(** A descending list is determined by its classes of equal rating: the
    stable descending sort of a list is unique, whatever algorithm the
    built-in sort runs. *)
Lemma stable_descending_unique l1 l2 :
  descending l1 → descending l2 → stable l1 l2 → l1 = l2.
Proof.
  unfold descending, stable.
  revert l2. induction l1 as [|x l1 IH]; intros l2 H1 H2 Hst.
  - destruct l2 as [|y l2]; [reflexivity |].
    specialize (Hst (rating y)). rewrite rated_head in Hst. discriminate.
  - destruct l2 as [|y l2].
    { specialize (Hst (rating x)). rewrite rated_head in Hst. discriminate. }
    apply StronglySorted_inv in H1 as [H1 Hx], H2 as [H2 Hy].
    rewrite List.Forall_forall in Hx, Hy.
    assert (x = y) as <-.
    { pose proof (Hst (rating x)) as Ex. pose proof (Hst (rating y)) as Ey.
      rewrite rated_head in Ex. rewrite rated_head in Ey.
      unfold rated in Ex at 2. unfold rated in Ey at 1. cbn [List.filter] in Ex, Ey.
      destruct (Qeq_bool (rating y) (rating x)) eqn:Eyx; [congruence |].
      destruct (Qeq_bool (rating x) (rating y)) eqn:Exy.
      { apply Qeq_bool_iff, Qeq_sym, Qeq_bool_iff in Exy. congruence. }
      exfalso.
      assert (In x l2) as Hin2 by (eapply rated_In; unfold rated; rewrite <- Ex; left; reflexivity).
      assert (In y l1) as Hin1 by (eapply rated_In; unfold rated; rewrite Ey; left; reflexivity).
      apply Hy in Hin2. apply Hx in Hin1.
      pose proof (Qle_antisym _ _ Hin1 Hin2) as E.
      apply Qeq_bool_iff in E. congruence. }
    f_equal. apply IH; [assumption .. |].
    intros r. specialize (Hst r). unfold rated in *. cbn [List.filter] in Hst.
    destruct (Qeq_bool (rating x) r); congruence.
Qed.

(** C6. [select_results] orders the candidates by rating, descending, with
    equal ratings kept in scan order (a stable sort of the input, hence a
    permutation of it); for [limit > 0] it returns the first [limit] records
    of that order, at most [limit] of them, and for [limit <= 0] all of them;
    what is returned is the [data] field of each candidate and nothing else. *)
Theorem select_results_sorted_stable_limited matches threshold limit :
  let sorted := sort_desc matches in
  Permutation sorted matches
  ∧ descending sorted
  ∧ stable sorted matches
  ∧ (∀ l, Permutation l matches → descending l → stable l matches → l = sorted)
  ∧ (0 < limit →
     select_results matches threshold limit
     = map data (firstn (Z.to_nat limit) sorted)
     ∧ Z.of_nat (length (select_results matches threshold limit)) ≤ limit)
  ∧ (limit ≤ 0 →
     select_results matches threshold limit = map data sorted
     ∧ length (select_results matches threshold limit) = length matches).
Proof.
  intros sorted. subst sorted.
  split; [apply sort_desc_perm |].
  split; [apply sort_desc_descending |].
  split; [apply sort_desc_stable |].
  split.
  { intros l _ Hd Hs. apply stable_descending_unique;
      [exact Hd | apply sort_desc_descending |].
    intros r. rewrite Hs. symmetry. apply sort_desc_stable. }
  unfold select_results. split; intros Hl.
  - apply Z.ltb_lt in Hl as Hb. rewrite Hb. split; [reflexivity |].
    rewrite length_map, length_firstn. lia.
  - assert (Hb : (0 <? limit) = false) by (apply Z.ltb_ge; exact Hl).
    rewrite Hb. split; [reflexivity |].
    rewrite length_map. apply Permutation_length, sort_desc_perm.
Qed.

(** ** Loops *)

Lemma outcome_for_each_cons {A S} (x : A) l (body : A → S → M S) s :
  outcome (for_each (x :: l) body s) =
  match outcome (body x s) with
  | inl e => inl e
  | inr s' => outcome (for_each l body s')
  end.
Proof. simpl. apply outcome_bind. Qed.

(** A loop whose body succeeds on a prefix of the items. *)
Lemma outcome_for_each_app {A S} (l1 l2 : list A) (body : A → S → M S) s s1 :
  outcome (for_each l1 body s) = inr s1 →
  outcome (for_each (l1 ++ l2) body s) = outcome (for_each l2 body s1).
Proof.
  revert s. induction l1 as [|x l1 IH]; intros s H.
  - simpl in H. inversion H. reflexivity.
  - rewrite <- app_comm_cons, outcome_for_each_cons.
    rewrite outcome_for_each_cons in H.
    destruct (outcome (body x s)) as [e|s']; [discriminate |].
    apply IH, H.
Qed.

(** A loop that appends at most one item per step computes an [omap]. *)
Lemma outcome_for_each_omap {A B} (f : A → option B) (body : A → list B → M (list B))
    (l : list A) (acc : list B) :
  (∀ x acc, In x l →
     outcome (body x acc) = inr (acc ++ option_list (f x))) →
  outcome (for_each l body acc) = inr (acc ++ omap f l).
Proof.
  revert acc. induction l as [|x l IH]; intros acc H.
  - simpl. rewrite app_nil_r. reflexivity.
  - rewrite outcome_for_each_cons, H by (left; reflexivity).
    rewrite IH by (intros; apply H; right; assumption).
    f_equal. rewrite <- app_assoc. f_equal. simpl.
    destruct (f x); reflexivity.
Qed.

(** A scan of the dataset succeeds or fails as its loop does; it first takes
    the iterator, and finds it exhausted when the loop completes. *)
Lemma outcome_scan {S} (dataset : list obj) (body : obj → list S → M (list S)) :
  outcome (scan dataset body) = outcome (for_each dataset body []).
Proof.
  unfold scan. rewrite outcome_tell, outcome_bind.
  destruct (outcome (for_each dataset body [])); reflexivity.
Qed.

Lemma trace_scan {S} (dataset : list obj) (body : obj → list S → M (list S)) :
  trace (scan dataset body)
  = EvIter :: trace (for_each dataset body [])
    ++ match outcome (for_each dataset body []) with
       | inl _ => []
       | inr _ => [EvStop]
       end.
Proof.
  unfold scan. rewrite trace_bind. cbn [trace tell fst outcome snd app].
  f_equal. rewrite trace_bind. reflexivity.
Qed.

Lemma omap_cons {A B} (f : A → option B) (x : A) (l : list A) :
  omap f (x :: l) = match f x with Some y => y :: omap f l | None => omap f l end.
Proof. reflexivity. Qed.

Lemma In_omap {A B} (f : A → option B) (l : list A) (y : B) :
  In y (omap f l) ↔ ∃ x, In x l ∧ f x = Some y.
Proof.
  rewrite <- list_elem_of_In, list_elem_of_omap.
  split; intros (x & H1 & H2); exists x; split; try assumption;
    apply list_elem_of_In; assumption.
Qed.

(** ** The single-attribute scorer *)

Lemma outcome_getattr {B} (o : obj) a v (k : string → M B) :
  o !! a = Some v → outcome (getattr o a ≫= k) = outcome (k v).
Proof.
  intros H. unfold getattr. rewrite outcome_bind, outcome_tell, H. reflexivity.
Qed.

Lemma outcome_getattr_missing {B} (o : obj) a (k : string → M B) :
  o !! a = None → outcome (getattr o a ≫= k) = inl (AttributeError a).
Proof.
  intros H. unfold getattr. rewrite outcome_bind, outcome_tell, H. reflexivity.
Qed.

Lemma outcome_call_matcher {B} matcher q v (k : Q → M B) :
  outcome (call_matcher matcher q v ≫= k) = outcome (k (matcher q v)).
Proof. unfold call_matcher. rewrite outcome_bind, outcome_tell. reflexivity. Qed.

Lemma single_body_ok matcher query attr_name threshold o matches :
  is_Some (o !! attr_name) →
  outcome (single_body matcher query attr_name threshold o matches)
  = inr (matches ++ option_list (single_candidate matcher query attr_name threshold o)).
Proof.
  intros [v Hv]. unfold single_body, single_candidate.
  rewrite outcome_tell, (outcome_getattr _ _ _ _ Hv), outcome_call_matcher, Hv.
  simpl. destruct (Qle_bool threshold (matcher query v)); simpl;
    [| rewrite app_nil_r]; reflexivity.
Qed.

Lemma single_body_missing matcher query attr_name threshold o matches :
  o !! attr_name = None →
  outcome (single_body matcher query attr_name threshold o matches)
  = inl (AttributeError attr_name).
Proof.
  intros Hv. unfold single_body.
  rewrite outcome_tell. apply outcome_getattr_missing, Hv.
Qed.

Lemma single_scan_ok matcher query attr_name threshold dataset :
  (∀ o, In o dataset → is_Some (o !! attr_name)) →
  outcome (single_scan matcher query attr_name threshold dataset)
  = inr (omap (single_candidate matcher query attr_name threshold) dataset).
Proof.
  intros H. unfold single_scan. rewrite outcome_scan.
  rewrite (outcome_for_each_omap (single_candidate matcher query attr_name threshold)).
  - reflexivity.
  - intros o acc Ho. apply single_body_ok, H, Ho.
Qed.

Lemma single_candidates_filter matcher query attr_name threshold dataset :
  (∀ o, In o dataset → is_Some (o !! attr_name)) →
  omap (single_candidate matcher query attr_name threshold) dataset
  = map (λ o, let s := score_of matcher query attr_name o in
              create_result o s s attr_name)
        (List.filter (λ o, Qle_bool threshold (score_of matcher query attr_name o))
           dataset).
Proof.
  induction dataset as [|o ds IH]; intros Hall; [reflexivity |].
  destruct (Hall o (or_introl eq_refl)) as [v Hv].
  rewrite omap_cons, IH by (intros; apply Hall; right; assumption).
  assert (Hs : score_of matcher query attr_name o = matcher query v)
    by (unfold score_of; rewrite Hv; reflexivity).
  cbn [List.filter]. unfold single_candidate at 1. rewrite Hv, Hs. simpl.
  destruct (Qle_bool threshold (matcher query v)); [| reflexivity].
  cbn [map]. rewrite Hs. reflexivity.
Qed.

Section Single.
Variable tokenize : string → list string.
Variable normalize : list Q → list Q.
Variable generate_weights : list string → list Q.
Variable generate_weights_from_matches : list result → gmap string Q.

Local Abbreviation run := (search add tokenize normalize generate_weights_from_matches).
Local Abbreviation new := (init generate_weights).

Lemma search_single self query dataset attributes limit threshold weights matcher
    attr_name :
  let c := resolve self attributes limit threshold weights matcher in
  cfg_attributes c = Some [attr_name] →
  run self query dataset attributes limit threshold weights matcher
  = if (length (tokenize query) =? 0)%nat then ret []
    else matches ← single_scan (cfg_matcher c) query attr_name (cfg_threshold c) dataset;
         ret (select_results matches (cfg_threshold c) (cfg_limit c)).
Proof.
  intros c H. unfold search. fold c. rewrite H. reflexivity.
Qed.

(** C5. With exactly one requested attribute, over a dataset whose records
    all expose it, the scorer emits, in scan order, one candidate for each
    record whose matcher score is at least the threshold and none for the
    others; the rating of a candidate is the raw score.  [search] returns
    the selection over these candidates, and neither the call-time nor the
    construction-time weights influence what the call returns. *)
Theorem single_attribute_threshold_filter
    attributes0 limit0 threshold0 weights0 matcher0
    query dataset attributes limit threshold weights matcher attr_name :
  let self := new attributes0 limit0 threshold0 weights0 matcher0 in
  let c := resolve self attributes limit threshold weights matcher in
  let score := score_of (cfg_matcher c) query attr_name in
  cfg_attributes c = Some [attr_name] →
  (∀ o, In o dataset → is_Some (o !! attr_name)) →
  ∃ candidates,
    outcome (single_scan (cfg_matcher c) query attr_name (cfg_threshold c) dataset)
    = inr candidates
    ∧ candidates
      = map (λ o, create_result o (score o) (score o) attr_name)
            (List.filter (λ o, Qle_bool (cfg_threshold c) (score o)) dataset)
    ∧ (∀ o, In o dataset →
         ((cfg_threshold c <= score o)%Q ↔ ∃ m, In m candidates ∧ data m = o))
    ∧ (∀ m, In m candidates → rating m = score (data m))
    ∧ (tokenize query ≠ [] →
         outcome (run self query dataset attributes limit threshold weights matcher)
         = inr (select_results candidates (cfg_threshold c) (cfg_limit c)))
    ∧ (∀ weights0' weights',
         run (new attributes0 limit0 threshold0 weights0' matcher0)
           query dataset attributes limit threshold weights' matcher
         = run self query dataset attributes limit threshold weights matcher).
Proof.
  intros self c score Hattr Hall.
  pose proof (single_candidates_filter (cfg_matcher c) query attr_name
                (cfg_threshold c) dataset Hall) as Hc.
  cbv zeta in Hc. fold score in Hc.
  eexists. split; [apply single_scan_ok, Hall |].
  split; [exact Hc |]. rewrite Hc.
  split; [| split; [| split]].
  - intros o Ho. rewrite <- Qle_bool_iff. split.
    + intros Hle. exists (create_result o (score o) (score o) attr_name).
      split; [| reflexivity].
      apply (List.in_map (λ o, create_result o (score o) (score o) attr_name)).
      apply List.filter_In. split; assumption.
    + intros (m & Hm & <-). apply List.in_map_iff in Hm as (o' & <- & Ho').
      apply List.filter_In in Ho'. apply Ho'.
  - intros m Hm. apply List.in_map_iff in Hm as (o' & <- & _). reflexivity.
  - intros Htok. rewrite (search_single _ _ _ _ _ _ _ _ _ Hattr). fold self c.
    destruct (tokenize query) eqn:E; [congruence |]. cbn [length Nat.eqb].
    rewrite outcome_bind, (single_scan_ok _ _ _ _ _ Hall), Hc. reflexivity.
  - intros weights0' weights'.
    rewrite (search_single self _ _ _ _ _ _ _ _ Hattr).
    rewrite (search_single _ _ _ _ _ _ _ _ attr_name); [reflexivity |].
    exact Hattr.
Qed.
End Single.

(** ** Built-ins used by the multi-attribute scorer *)

Lemma py_max_fold_spec {A} (key : A → Q) (rest : list A) (x : A) :
  let b := fold_left (λ best y, if Qlt_bool (key best) (key y) then y else best) rest x in
  In b (x :: rest) ∧ (key x <= key b)%Q ∧ ∀ y, In y rest → (key y <= key b)%Q.
Proof.
  revert x. induction rest as [|z rest IH]; intros x; cbn [fold_left].
  - split; [left; reflexivity |]. split; [apply Qle_refl | intros y []].
  - set (x' := if Qlt_bool (key x) (key z) then z else x).
    destruct (IH x') as (Hin & Hx' & Hrest).
    assert (Hxx' : (key x <= key x')%Q ∧ (key z <= key x')%Q ∧ (x' = x ∨ x' = z)).
    { unfold x', Qlt_bool. destruct (Qle_bool (key z) (key x)) eqn:E; simpl.
      - apply Qle_bool_iff in E. repeat split; [apply Qle_refl | exact E | tauto].
      - destruct (Qlt_le_dec (key x) (key z)) as [H | H].
        + repeat split; [apply Qlt_le_weak, H | apply Qle_refl | tauto].
        + apply Qle_bool_iff in H. congruence. }
    destruct Hxx' as (H1 & H2 & H3).
    split; [| split].
    + destruct Hin as [Hin | Hin]; [| right; right; exact Hin].
      rewrite <- Hin. destruct H3 as [-> | ->]; [left | right; left]; reflexivity.
    + eapply Qle_trans; eassumption.
    + intros y [<- | Hy]; [eapply Qle_trans; eassumption | apply Hrest, Hy].
Qed.

(** [max] returns an item of the sequence with the greatest key. *)
Lemma py_max_spec {A} (key : A → Q) (items : list A) (b : A) :
  py_max key items = Some b →
  In b items ∧ ∀ y, In y items → (key y <= key b)%Q.
Proof.
  destruct items as [|x rest]; [discriminate |].
  unfold py_max. intros [= <-].
  destruct (py_max_fold_spec key rest x) as (H1 & H2 & H3).
  split; [exact H1 |]. intros y [<- | Hy]; [exact H2 | apply H3, Hy].
Qed.

Lemma py_max_None {A} (key : A → Q) (items : list A) :
  py_max key items = None ↔ items = [].
Proof. destruct items; simpl; split; intros; congruence. Qed.

Lemma py_dict_fold_lookup {V} (pairs : list (string * V)) (d : gmap string V) k :
  In k (map fst pairs) ∨ is_Some (d !! k) →
  is_Some (fold_left (λ d kv, <[kv.1 := kv.2]> d) pairs d !! k).
Proof.
  revert d. induction pairs as [|[k' v] pairs IH]; intros d H; cbn [fold_left].
  - destruct H as [[] | H]; exact H.
  - apply IH. simpl in H. destruct H as [[-> | H] | H].
    + right. rewrite lookup_insert_eq. eauto.
    + left. exact H.
    + right. destruct (decide (k' = k)) as [-> | Hne].
      * rewrite lookup_insert_eq. eauto.
      * rewrite lookup_insert_ne by exact Hne. exact H.
Qed.

(** Every attribute has a weight when there are as many weights as
    attributes. *)
Lemma py_dict_zip_lookup {V} (keys : list string) (values : list V) k :
  length values = length keys → In k keys →
  is_Some (py_dict (zip keys values) !! k).
Proof.
  intros Hlen Hk. apply py_dict_fold_lookup. left.
  change (map fst (zip keys values)) with (fst <$> zip keys values).
  rewrite fst_zip by lia. exact Hk.
Qed.

(** ** The multi-attribute scorer *)

Lemma first_missing_None o attributes :
  first_missing o attributes = None ↔ ∀ a, In a attributes → is_Some (o !! a).
Proof.
  induction attributes as [|a rest IH]; simpl.
  - split; [intros _ a [] | reflexivity].
  - destruct (o !! a) eqn:E.
    + rewrite IH. split.
      * intros H b [<- | Hb]; [rewrite E; eauto | apply H, Hb].
      * intros H b Hb. apply H. right. exact Hb.
    + split; [discriminate |]. intros H.
      destruct (H a (or_introl eq_refl)) as [v Hv]. congruence.
Qed.

Lemma first_missing_Some o attributes a :
  first_missing o attributes = Some a → In a attributes ∧ o !! a = None.
Proof.
  induction attributes as [|b rest IH]; simpl; [discriminate |].
  destruct (o !! b) eqn:E.
  - intros H. destruct (IH H). tauto.
  - intros [= <-]. tauto.
Qed.

Lemma partial_body_outcome matcher query o a acc :
  outcome (partial_body matcher query o a acc) =
  match o !! a with
  | None => inl (AttributeError a)
  | Some _ => inr (acc ++ option_list (partial_of matcher query o a))
  end.
Proof.
  unfold partial_body, partial_of. destruct (o !! a) as [v|] eqn:E.
  - rewrite (outcome_getattr _ _ _ _ E).
    destruct (String.length v =? 0)%nat eqn:El.
    + simpl. rewrite El, app_nil_r. reflexivity.
    + rewrite outcome_call_matcher. simpl. rewrite El. reflexivity.
  - apply outcome_getattr_missing, E.
Qed.

Lemma collect_partial_outcome_acc matcher query o attributes acc :
  outcome (for_each attributes (partial_body matcher query o) acc) =
  match first_missing o attributes with
  | Some a => inl (AttributeError a)
  | None => inr (acc ++ omap (partial_of matcher query o) attributes)
  end.
Proof.
  revert acc. induction attributes as [|a rest IH]; intros acc.
  - simpl. rewrite app_nil_r. reflexivity.
  - rewrite outcome_for_each_cons, partial_body_outcome. cbn [first_missing].
    destruct (o !! a) as [v|] eqn:E; [| reflexivity].
    rewrite IH. destruct (first_missing o rest); [reflexivity |].
    rewrite omap_cons, <- app_assoc.
    destruct (partial_of matcher query o a); reflexivity.
Qed.

(** The inner loop either stops at the first attribute the record lacks or
    yields the match records of the non-empty attributes, in attribute
    order. *)
Lemma collect_partial_outcome matcher query attributes o :
  outcome (collect_partial matcher query attributes o) =
  match first_missing o attributes with
  | Some a => inl (AttributeError a)
  | None => inr (omap (partial_of matcher query o) attributes)
  end.
Proof. apply collect_partial_outcome_acc. Qed.

Lemma partial_of_attr matcher query o attributes p :
  In p (omap (partial_of matcher query o) attributes) → In (p_attr p) attributes.
Proof.
  rewrite In_omap. intros (a & Ha & Hp). unfold partial_of in Hp.
  destruct (o !! a) as [v|]; [| discriminate]. simpl in Hp.
  destruct (String.length v =? 0)%nat; [discriminate |].
  injection Hp as <-. exact Ha.
Qed.

(** What one iteration of the outer loop does. *)
Lemma multi_body_outcome matcher query attributes weights threshold o matches :
  outcome (multi_body matcher query attributes weights threshold o matches) =
  match first_missing o attributes with
  | Some a => inl (AttributeError a)
  | None =>
      let pm := omap (partial_of matcher query o) attributes in
      match py_max p_match pm with
      | None => inl (ValueError "max() arg is an empty sequence")
      | Some best =>
          if Qle_bool threshold (p_match best) then
            match weights !! p_attr best with
            | Some w =>
                inr (matches ++
                     [create_result o (p_match best)
                        (add (add (p_match best) (py_sum (map p_match pm))) w)
                        (p_attr best)])
            | None => inl (KeyError (p_attr best))
            end
          else inr matches
      end
  end.
Proof.
  unfold multi_body. rewrite outcome_tell, outcome_bind, collect_partial_outcome.
  destruct (first_missing o attributes); [reflexivity |]. cbv zeta.
  destruct (py_max p_match _) as [best|]; [| reflexivity].
  destruct (Qle_bool threshold (p_match best)); [| reflexivity].
  unfold getitem. destruct (weights !! p_attr best); reflexivity.
Qed.



Lemma omap_all_None {A B} (f : A → option B) (l : list A) :
  (∀ x, In x l → f x = None) → omap f l = [].
Proof.
  induction l as [|x l IH]; intros H; [reflexivity |].
  rewrite omap_cons, (H x (or_introl eq_refl)).
  apply IH. intros y Hy. apply H. right. exact Hy.
Qed.

Lemma ramp_length n : length (ramp n) = n.
Proof. induction n as [|n IH]; [reflexivity |]. cbn [ramp length]. rewrite IH. reflexivity. Qed.

Lemma raw_weights_length attributes weights :
  length (raw_weights attributes weights) = length attributes.
Proof.
  unfold raw_weights.
  destruct (negb (truth weights)); cbn [orb]; [apply ramp_length |].
  destruct (Nat.eqb_spec (len weights) (length attributes)) as [E | E]; cbn [negb].
  - exact E.
  - apply ramp_length.
Qed.

(** A loop whose body succeeds on every item succeeds. *)
Lemma outcome_for_each_ok {A S} (l : list A) (body : A → S → M S) :
  (∀ x s, In x l → ∃ s', outcome (body x s) = inr s') →
  ∀ s, ∃ s', outcome (for_each l body s) = inr s'.
Proof.
  induction l as [|x l IH]; intros H s.
  - exists s. reflexivity.
  - rewrite outcome_for_each_cons.
    destruct (H x s (or_introl eq_refl)) as [s1 ->].
    apply IH. intros y s2 Hy. apply H. right. exact Hy.
Qed.

(** A loop stops with the exception of the first item whose body fails. *)
Lemma outcome_for_each_fail {A S} (before after : list A) (x : A)
    (body : A → S → M S) (e : exn) s s1 :
  outcome (for_each before body s) = inr s1 →
  outcome (body x s1) = inl e →
  outcome (for_each (before ++ x :: after) body s) = inl e.
Proof.
  intros H1 H2. rewrite (outcome_for_each_app _ _ _ _ _ H1).
  rewrite outcome_for_each_cons, H2. reflexivity.
Qed.

Section Multi.
Variable tokenize : string → list string.
Variable normalize : list Q → list Q.
Variable generate_weights : list string → list Q.
Variable generate_weights_from_matches : list result → gmap string Q.

Local Abbreviation run := (search add tokenize normalize generate_weights_from_matches).
Local Abbreviation multi := (multi_search add normalize generate_weights_from_matches).
Local Abbreviation weights_of := (weights_of normalize).

Lemma search_multi self query dataset attributes limit threshold weights matcher
    attrs :
  let c := resolve self attributes limit threshold weights matcher in
  cfg_attributes c = Some attrs → attrs ≠ [] → length attrs ≠ 1%nat →
  tokenize query ≠ [] →
  run self query dataset attributes limit threshold weights matcher
  = multi c query dataset attrs.
Proof.
  intros c Ha Hne Hlen Htok. unfold search. fold c. rewrite Ha.
  destruct attrs as [|a attrs]; [congruence |]. cbn [truth option_truthy list_truthy negb].
  destruct (tokenize query); [congruence |]. cbn [length Nat.eqb default].
  destruct attrs as [|b attrs]; [cbn in Hlen; congruence |]. reflexivity.
Qed.

Lemma multi_search_fails c query dataset attrs e :
  outcome (multi_scan (cfg_matcher c) query attrs (weights_of c attrs)
             (cfg_threshold c) dataset) = inl e →
  outcome (multi c query dataset attrs) = inl e.
Proof.
  intros H. unfold multi_search. cbv zeta. fold (weights_of c attrs).
  rewrite outcome_bind, H. reflexivity.
Qed.




(** C2 (what the code does). In the multi-attribute path, a record whose
    requested attributes are all empty leaves the list of match records
    empty, and [max] over it raises: once the scan reaches such a record
    the whole call fails with
    [ValueError('max() arg is an empty sequence')]; the record is not
    skipped and no list is returned. *)
Theorem all_empty_record_raises
    self query attributes limit threshold weights matcher attrs
    before o after acc :
  let c := resolve self attributes limit threshold weights matcher in
  cfg_attributes c = Some attrs → attrs ≠ [] → length attrs ≠ 1%nat →
  tokenize query ≠ [] →
  (∀ a, In a attrs → o !! a = Some EmptyString) →
  outcome (multi_scan (cfg_matcher c) query attrs (weights_of c attrs)
             (cfg_threshold c) before) = inr acc →
  outcome (run self query (before ++ o :: after)
             attributes limit threshold weights matcher)
  = inl (ValueError "max() arg is an empty sequence").
Proof.
  intros c Ha Hne Hlen Htok Hempty Hbefore.
  rewrite (search_multi _ _ _ _ _ _ _ _ attrs Ha Hne Hlen Htok). fold c.
  apply multi_search_fails. unfold multi_scan in *.
  rewrite outcome_scan in Hbefore. rewrite outcome_scan.
  eapply outcome_for_each_fail; [exact Hbefore |].
  rewrite multi_body_outcome.
  assert (Hfm : first_missing o attrs = None).
  { apply first_missing_None. intros a Hin. rewrite (Hempty a Hin). eauto. }
  rewrite Hfm. cbv zeta. rewrite omap_all_None; [reflexivity |].
  intros a Hin. unfold partial_of. rewrite (Hempty a Hin). reflexivity.
Qed.

Lemma multi_body_ok c query attrs p acc :
  (∀ ws, length (normalize ws) = length ws) →
  (∀ a, In a attrs → is_Some (p !! a)) →
  (∃ a v, In a attrs ∧ p !! a = Some v ∧ v ≠ EmptyString) →
  ∃ acc', outcome (multi_body (cfg_matcher c) query attrs (weights_of c attrs)
                     (cfg_threshold c) p acc) = inr acc'.
Proof.
  intros Hnorm Hall (a & v & Ha & Hv & Hne).
  rewrite multi_body_outcome.
  rewrite (proj2 (first_missing_None p attrs) Hall). cbv zeta.
  set (pm := omap (partial_of (cfg_matcher c) query p) attrs).
  assert (Hpm : pm ≠ []).
  { assert (In {| p_attr := a; p_match := cfg_matcher c query v |} pm) as Hin.
    { apply In_omap. exists a. split; [exact Ha |].
      unfold partial_of. rewrite Hv. simpl.
      destruct v; [congruence | reflexivity]. }
    intros E. rewrite E in Hin. exact Hin. }
  destruct (py_max p_match pm) as [best|] eqn:Hmax;
    [| apply py_max_None in Hmax; contradiction].
  destruct (Qle_bool (cfg_threshold c) (p_match best)); [| eauto].
  destruct (py_max_spec _ _ _ Hmax) as [Hin _].
  apply partial_of_attr in Hin.
  destruct (py_dict_zip_lookup attrs
              (normalize (raw_weights attrs (cfg_weights c))) (p_attr best))
    as [w Hw]; [| exact Hin |].
  - rewrite Hnorm. apply raw_weights_length.
  - unfold weights_of. rewrite Hw. eauto.
Qed.

(** C8 (as amended). When the attributes are resolvable and the query
    tokenizes to a non-empty sequence, a record that lacks a requested
    attribute makes the whole call fail with [AttributeError] for the
    first attribute it lacks, provided the scan reaches it: the records
    before it expose every requested attribute and, in the multi-attribute
    path, each has a non-empty value.  No list is returned. *)
Theorem missing_attribute_propagates
    self query attributes limit threshold weights matcher attrs
    before o after a :
  let c := resolve self attributes limit threshold weights matcher in
  (∀ ws, length (normalize ws) = length ws) →
  cfg_attributes c = Some attrs →
  tokenize query ≠ [] →
  (∀ p, In p before →
     (∀ b, In b attrs → is_Some (p !! b))
     ∧ (length attrs = 1%nat
        ∨ ∃ b v, In b attrs ∧ p !! b = Some v ∧ v ≠ EmptyString)) →
  In a attrs → o !! a = None →
  ∃ a', In a' attrs ∧ o !! a' = None
        ∧ first_missing o attrs = Some a'
        ∧ outcome (run self query (before ++ o :: after)
                     attributes limit threshold weights matcher)
          = inl (AttributeError a').
Proof.
  intros c Hnorm Hattrs Htok Hbefore Ha Hmiss.
  destruct (first_missing o attrs) as [a'|] eqn:Hfm.
  2:{ destruct (proj1 (first_missing_None o attrs) Hfm a Ha) as [v Hv]. congruence. }
  destruct (first_missing_Some _ _ _ Hfm) as [Ha' Hmiss'].
  exists a'. split; [exact Ha' |]. split; [exact Hmiss' |]. split; [reflexivity |].
  destruct (Nat.eq_dec (length attrs) 1%nat) as [Hone | Hmany].
  - destruct attrs as [|b [|? ?]]; try discriminate.
    assert (b = a') as -> by (destruct Ha' as [? | []]; assumption).
    rewrite (search_single _ _ _ _ _ _ _ _ _ _ _ a' Hattrs). fold c.
    destruct (tokenize query) as [|tok toks]; [congruence |]. cbn [length Nat.eqb].
    rewrite outcome_bind. unfold single_scan. rewrite outcome_scan.
    assert (Hok : ∀ p acc, In p before → ∃ acc',
              outcome (single_body (cfg_matcher c) query a' (cfg_threshold c) p acc)
              = inr acc').
    { intros p acc Hp. rewrite single_body_ok; [eauto |].
      apply (Hbefore p Hp). left. reflexivity. }
    destruct (outcome_for_each_ok _ _ Hok []) as [acc Hacc].
    rewrite (outcome_for_each_fail _ _ _ _ (AttributeError a') _ _ Hacc);
      [reflexivity |].
    apply single_body_missing, Hmiss'.
  - assert (Hne : attrs ≠ []) by (intros ->; destruct Ha).
    rewrite (search_multi _ _ _ _ _ _ _ _ attrs Hattrs Hne Hmany Htok). fold c.
    apply multi_search_fails. unfold multi_scan. rewrite outcome_scan.
    assert (Hok : ∀ p acc, In p before → ∃ acc',
              outcome (multi_body (cfg_matcher c) query attrs (weights_of c attrs)
                         (cfg_threshold c) p acc) = inr acc').
    { intros p acc Hp. destruct (Hbefore p Hp) as [Hall [Hone | Hsome]];
        [contradiction |].
      apply multi_body_ok; assumption. }
    destruct (outcome_for_each_ok _ _ Hok []) as [acc Hacc].
    eapply outcome_for_each_fail; [exact Hacc |].
    rewrite multi_body_outcome, Hfm. reflexivity.
Qed.
End Multi.

End Scoring.

(** ** Default weights and their normalisation *)

(** The exact sum over a sequence split around one of its items. *)
Lemma fold_left_Qplus_acc (l : list Q) (a : Q) :
  (fold_left Qplus l a == a + py_sum Qplus l)%Q.
Proof.
  unfold py_sum. revert a. induction l as [|x l IH]; intros a; cbn [fold_left].
  - ring.
  - rewrite (IH (a + x)%Q), (IH (0 + x)%Q). ring.
Qed.

Lemma py_sum_app (l1 l2 : list Q) :
  (py_sum Qplus (l1 ++ l2) == py_sum Qplus l1 + py_sum Qplus l2)%Q.
Proof.
  unfold py_sum at 1. rewrite fold_left_app. fold (py_sum Qplus l1).
  apply fold_left_Qplus_acc.
Qed.

Lemma py_sum_cons (x : Q) (l : list Q) :
  (py_sum Qplus (x :: l) == x + py_sum Qplus l)%Q.
Proof.
  unfold py_sum at 1. cbn [fold_left]. rewrite fold_left_Qplus_acc. ring.
Qed.

Lemma ramp_seq n :
  ramp n = map (λ k, inject_Z (Z.of_nat (n - k))) (seq 0 n).
Proof.
  induction n as [|n IH]; [reflexivity |].
  cbn [ramp seq map]. f_equal. rewrite IH, <- seq_shift, List.map_map. reflexivity.
Qed.

Lemma ramp_positive n : Forall (λ x, (0 < x)%Q) (ramp n).
Proof.
  induction n as [|n IH]; cbn [ramp]; constructor; [| exact IH].
  unfold Qlt, inject_Z. simpl. lia.
Qed.

Lemma py_sum_nonneg l : Forall (λ x, (0 <= x)%Q) l → (0 <= py_sum Qplus l)%Q.
Proof.
  induction 1 as [|x l Hx _ IH]; [apply Qle_refl |].
  rewrite py_sum_cons. rewrite <- (Qplus_0_l 0). apply Qplus_le_compat; assumption.
Qed.

Lemma py_sum_positive l :
  l ≠ [] → Forall (λ x, (0 < x)%Q) l → (0 < py_sum Qplus l)%Q.
Proof.
  intros Hne H. destruct H as [|x l Hx Hl]; [congruence |].
  rewrite py_sum_cons. rewrite <- (Qplus_0_l 0).
  apply Qplus_lt_le_compat; [exact Hx |].
  apply py_sum_nonneg. eapply Forall_impl; [exact Hl |].
  intros y. apply Qlt_le_weak.
Qed.

Lemma py_sum_map_div l s :
  (py_sum Qplus (map (λ v, v / s) l) == py_sum Qplus l / s)%Q.
Proof.
  induction l as [|x l IH]; cbn [map].
  - unfold py_sum, Qdiv. simpl. ring.
  - rewrite !py_sum_cons, IH. unfold Qdiv. ring.
Qed.

Lemma normalize_spec_length add div values :
  length (normalize_spec add div values) = length values.
Proof.
  unfold normalize_spec. destruct (Qeq_bool (py_sum add values) 0); apply length_map.
Qed.

(** In exact arithmetic, non-negative values with a positive sum are
    normalised to a distribution. *)
Lemma normalize_exact_distribution values :
  Forall (λ x, (0 <= x)%Q) values → (0 < py_sum Qplus values)%Q →
  (py_sum Qplus (normalize_exact values) == 1)%Q
  ∧ Forall (λ x, (0 <= x)%Q) (normalize_exact values).
Proof.
  intros Hnn Hpos. unfold normalize_exact, normalize_spec.
  assert (Hs : ¬ (py_sum Qplus values == 0)%Q).
  { intros E. rewrite E in Hpos. exact (Qlt_irrefl 0 Hpos). }
  destruct (Qeq_bool (py_sum Qplus values) 0) eqn:E;
    [apply Qeq_bool_iff in E; contradiction |].
  split.
  - rewrite py_sum_map_div. field. exact Hs.
  - apply Forall_map. eapply Forall_impl; [exact Hnn |]. simpl.
    intros x Hx. unfold Qdiv. apply Qmult_le_0_compat; [exact Hx |].
    apply Qinv_le_0_compat, Qlt_le_weak, Hpos.
Qed.

(** In binary64 arithmetic, checked by evaluation for every ramp of one to
    128 weights. *)
Lemma ramp64_checked : forallb ramp64_ok (seq 1 128) = true.
Proof. vm_compute. reflexivity. Qed.

Lemma ramp64_distribution n :
  (1 <= n <= 128)%nat →
  length (normalize64 (ramp n)) = n
  ∧ (Qabs (py_sum add64 (normalize64 (ramp n)) - 1) <= tolerance)%Q
  ∧ Forall (λ x, (0 <= x)%Q) (normalize64 (ramp n)).
Proof.
  intros Hn.
  assert (Hok : ramp64_ok n = true).
  { pose proof ramp64_checked as H. rewrite forallb_forall in H.
    apply H, in_seq. lia. }
  unfold ramp64_ok in Hok. cbv zeta in Hok.
  apply andb_prop in Hok as [Hok Hpos]. apply andb_prop in Hok as [Hlen Hsum].
  split; [apply Nat.eqb_eq, Hlen |]. split; [apply Qle_bool_iff, Hsum |].
  apply List.Forall_forall. intros x Hx. apply Qle_bool_iff.
  rewrite forallb_forall in Hpos. apply Hpos, Hx.
Qed.

Section Ramp.
Variable add : Q → Q → Q.
Variable tokenize : string → list string.
Variable normalize : list Q → list Q.
Variable generate_weights_from_matches : list result → gmap string Q.

Local Abbreviation run := (search add tokenize normalize generate_weights_from_matches).

(** C9 (as amended). In a multi-attribute call, whenever the resolved
    weights (the call-time weights if non-empty, the construction-time
    weights otherwise) are absent, empty, or not as many as the [n]
    attributes, the weights handed to the normaliser are the ramp
    [n, n-1, ..., 1], and the call scores with the dictionary of the
    attributes and the normalised ramp.  Normalised by division by their
    sum, the ramp gives [n] weights that are not negative and that sum to
    one: exactly in exact arithmetic, and within [2^-40] in binary64
    arithmetic for every [n] up to 128. *)
Theorem default_weights_ramp
    self query dataset attributes limit threshold weights matcher
    (attrs : list string) :
  let c := resolve self attributes limit threshold weights matcher in
  let n := length attrs in
  cfg_attributes c = Some attrs → (2 <= n)%nat → tokenize query ≠ [] →
  cfg_weights c = None ∨ cfg_weights c = Some [] ∨ len (cfg_weights c) ≠ n →
  raw_weights attrs (cfg_weights c) = ramp n
  ∧ ramp n = map (λ k, inject_Z (Z.of_nat (n - k))) (seq 0 n)
  ∧ run self query dataset attributes limit threshold weights matcher
    = (matches ← multi_scan add (cfg_matcher c) query attrs
                   (py_dict (zip attrs (normalize (ramp n))))
                   (cfg_threshold c) dataset;
       matches ← adjust add (generate_weights_from_matches matches) matches;
       ret (select_results matches (cfg_threshold c) (cfg_limit c)))
  ∧ (length (normalize_exact (ramp n)) = n
     ∧ (py_sum Qplus (normalize_exact (ramp n)) == 1)%Q
     ∧ Forall (λ x, (0 <= x)%Q) (normalize_exact (ramp n)))
  ∧ ((n <= 128)%nat →
     length (normalize64 (ramp n)) = n
     ∧ (Qabs (py_sum add64 (normalize64 (ramp n)) - 1) <= tolerance)%Q
     ∧ Forall (λ x, (0 <= x)%Q) (normalize64 (ramp n))).
Proof.
  intros c n Hattrs Hn Htok Hw.
  assert (Hraw : raw_weights attrs (cfg_weights c) = ramp n).
  { unfold raw_weights. fold n.
    destruct Hw as [-> | [-> | Hlen]]; [reflexivity .. |].
    destruct (Nat.eqb_spec (len (cfg_weights c)) n) as [E | E]; [contradiction |].
    rewrite orb_true_r. reflexivity. }
  split; [exact Hraw |]. split; [apply ramp_seq |]. split; [| split].
  - rewrite (search_multi _ _ _ _ _ _ _ _ _ _ _ _ attrs Hattrs);
      [| intros E; subst n; rewrite E in Hn; cbn in Hn; lia | subst n; lia | exact Htok].
    fold c. unfold multi_search. cbv zeta. rewrite Hraw. reflexivity.
  - split; [unfold normalize_exact; rewrite normalize_spec_length; apply ramp_length |].
    apply normalize_exact_distribution.
    + eapply Forall_impl; [apply ramp_positive |]. intros x. apply Qlt_le_weak.
    + apply py_sum_positive; [| apply ramp_positive].
      destruct n; [lia | discriminate].
  - intros Hmax. apply ramp64_distribution. subst n. lia.
Qed.
End Ramp.

(** Call-time weights of the wrong length are the resolved weights, so they
    are replaced by the ramp. *)
Lemma call_time_mismatch_ramp self attributes limit threshold x ws matcher
    (attrs : list string) :
  length (x :: ws) ≠ length attrs →
  raw_weights attrs
    (cfg_weights (resolve self attributes limit threshold (Some (x :: ws)) matcher))
  = ramp (length attrs).
Proof.
  intros H. unfold raw_weights, resolve. cbn [cfg_weights py_or truth option_truthy
    list_truthy negb orb].
  change (len (Some (x :: ws))) with (length (x :: ws)).
  destruct (Nat.eqb_spec (length (x :: ws)) (length attrs)); [contradiction |].
  reflexivity.
Qed.

(** ** The properties on the sample data *)

Section Samples.
Import Sample.
Local Open Scope string_scope.

(** C7, where the claim as stated fails: a call-time attribute list that is
    empty does not override the attributes of the engine.  The call searches
    by the engine's attribute, where the empty list itself would be refused. *)
Lemma call_time_empty_attributes_fall_back :
  cfg_attributes (resolve by_name (Some []) None None None None) ≠ Some []
  ∧ cfg_attributes (resolve by_name (Some []) None None None None) = Some ["name"]
  ∧ outcome (search_spec by_name "john" [john; jane]
               (Some []) None None None None) = inr [john]
  ∧ outcome (search_spec bare "john" [john; jane]
               (Some []) None None None None)
    = inl (ValueError "Missing attributes to search into.").
Proof. repeat split; try (vm_compute; reflexivity). vm_compute. discriminate. Qed.

(** A defect of lines 122-123, left out of C7 as amended: [or] also drops a
    call-time [limit=0] (no limit), which the constructor takes as given. *)
Lemma call_time_zero_limit_falls_back :
  cfg_limit (resolve by_name None (Some 0) None None None) ≠ 0
  ∧ cfg_limit (resolve by_name None (Some 0) None None None) = 1
  ∧ outcome (search_spec by_name "john" [john; johnny]
               None (Some 0) None None None) = inr [john]
  ∧ outcome (search_spec (init_spec (Some ["name"]) 0 (3 # 4)%Q None term_match)
               "john" [john; johnny] None None None None None)
    = inr [john; johnny].
Proof. repeat split; try (vm_compute; reflexivity). vm_compute. discriminate. Qed.

(** C8, where the claim as stated fails: with a query that tokenizes to
    nothing, a dataset holding a record without the requested attribute
    yields the empty list, not an error. *)
Lemma empty_query_skips_missing_attribute :
  nameless !! "name" = None
  ∧ search_spec by_name "is a" [john; nameless] None None None None None
    = ([], inr [])
  ∧ outcome (search_spec by_name "is a" [john; nameless] None None None None None)
    ≠ inl (AttributeError "name").
Proof. repeat split; try (vm_compute; reflexivity). vm_compute. discriminate. Qed.

(** C9, where the claim as stated fails: with the call-time weights
    absent, an engine built with weights [1, 5] for its two attributes
    scores with those weights, not with the ramp [2, 1], and ranks
    differently from a call that does fall back to the ramp. *)
Lemma absent_weights_use_engine_weights :
  raw_weights ["name"; "category"]
    (cfg_weights (resolve weighted None None None None None)) ≠ ramp 2
  ∧ raw_weights ["name"; "category"]
      (cfg_weights (resolve weighted None None None None None)) = [1; 5]%Q
  ∧ ramp 2 = [2; 1]%Q
  ∧ outcome (search_spec weighted "awesome" [item_a; item_b]
               None None None None None) = inr [item_a; item_b]
  ∧ outcome (search_spec weighted "awesome" [item_a; item_b]
               None None None (Some [1]%Q) None) = inr [item_b; item_a].
Proof. repeat split; try (vm_compute; reflexivity). vm_compute. discriminate. Qed.

(** *** Instances of the theorems *)


Lemma all_empty_record_raises_witness :
  outcome (search_spec weighted "awesome" [item_a; blank; item_b]
             None None None None None)
  = inl (ValueError "max() arg is an empty sequence").
Proof.
  eapply (all_empty_record_raises add64 tokenize_spec normalize64 adjusted64
            weighted "awesome"
            None None None None None ["name"; "category"] [item_a] blank [item_b]).
  - vm_compute. reflexivity.
  - discriminate.
  - simpl. discriminate.
  - vm_compute. discriminate.
  - intros a [<- | [<- | []]]; vm_compute; reflexivity.
  - vm_compute. reflexivity.
Defined.

Lemma empty_query_short_circuit_witness :
  search_spec by_name "is a" [john; nameless] None None None None None
  = ([], inr []).
Proof.
  apply (empty_query_short_circuit add64 tokenize_spec normalize64 adjusted64
           by_name "is a" [john; nameless]
           None None None None None ["name"]).
  - reflexivity.
  - discriminate.
  - vm_compute. reflexivity.
Defined.

Lemma search_missing_attributes_fails_witness :
  outcome (search_spec bare "john" [john] (Some []) None None None None)
  = inl (ValueError "Missing attributes to search into.")
  ∧ trace (search_spec bare "john" [john] (Some []) None None None None) = [].
Proof.
  apply (search_missing_attributes_fails add64 tokenize_spec normalize64
           generate_weights_spec adjusted64
           None (-1) (3 # 4)%Q None term_match "john" [john]
           (Some []) None None None None).
  - right. reflexivity.
  - left. reflexivity.
Defined.

Lemma single_attribute_threshold_filter_witness :
  ∃ candidates,
    outcome (single_scan term_match "john" "name" (3 # 4)%Q [john; jane; johnny])
    = inr candidates
    ∧ candidates = [create_result john 1%Q 1%Q "name";
                    create_result johnny 1%Q 1%Q "name"]
    ∧ outcome (search_spec by_name "john" [john; jane; johnny]
                 None None None None None)
      = inr (select_results candidates (3 # 4)%Q 1).
Proof.
  destruct (single_attribute_threshold_filter add64 tokenize_spec normalize64
              generate_weights_spec adjusted64
              (Some ["name"]) 1 (3 # 4)%Q None term_match
              "john" [john; jane; johnny] None None None None None "name")
    as (candidates & Hscan & Hcands & _ & _ & Hsearch & _).
  - reflexivity.
  - intros o [<- | [<- | [<- | []]]]; eexists; vm_compute; reflexivity.
  - exists candidates. split; [exact Hscan |]. split.
    + rewrite Hcands. vm_compute. reflexivity.
    + apply Hsearch. vm_compute. discriminate.
Defined.

Lemma missing_attribute_propagates_witness :
  outcome (search_spec weighted "awesome" [item_a; nameless; item_b]
             None None None None None)
  = inl (AttributeError "name").
Proof.
  destruct (missing_attribute_propagates add64 tokenize_spec normalize64 adjusted64
              weighted "awesome"
              None None None None None ["name"; "category"]
              [item_a] nameless [item_b] "name")
    as (a' & _ & _ & Hfirst & Hout).
  - intros ws. apply normalize_spec_length.
  - vm_compute. reflexivity.
  - vm_compute. discriminate.
  - intros p [<- | []]. split.
    + intros b [<- | [<- | []]]; eexists; vm_compute; reflexivity.
    + right. exists "name", "plain item".
      split; [left; reflexivity |]. split; [vm_compute; reflexivity | discriminate].
  - left. reflexivity.
  - vm_compute. reflexivity.
  - vm_compute in Hfirst. injection Hfirst as <-. exact Hout.
Defined.

Lemma default_weights_ramp_witness :
  raw_weights ["name"; "category"]
    (cfg_weights (resolve bare (Some ["name"; "category"]) None None None None))
  = ramp 2
  ∧ outcome (search_spec bare "awesome" [item_a; item_b]
               (Some ["name"; "category"]) None None None None)
    = inr [item_b; item_a]
  ∧ (py_sum Qplus (normalize_exact (ramp 2)) == 1)%Q
  ∧ (Qabs (py_sum add64 (normalize64 (ramp 2)) - 1) <= tolerance)%Q.
Proof.
  destruct (default_weights_ramp add64 tokenize_spec normalize64 adjusted64
              bare "awesome" [item_a; item_b]
              (Some ["name"; "category"]) None None None None
              ["name"; "category"])
    as (Hraw & _ & Hrun & (_ & Hexact & _) & H64).
  - reflexivity.
  - cbn [length]. lia.
  - vm_compute. discriminate.
  - left. vm_compute. reflexivity.
  - split; [exact Hraw |]. split.
    + unfold search_spec. rewrite Hrun. vm_compute. reflexivity.
    + split; [exact Hexact |]. apply H64. cbn [length]. lia.
Defined.

Lemma missing_attributes_before_empty_query_witness :
  search_spec bare "" [john] None None None None None
  = ([], inl (ValueError "Missing attributes to search into."))
  ∧ outcome (search_spec bare "" [john] None None None None None) ≠ inr [].
Proof.
  apply (missing_attributes_before_empty_query add64 tokenize_spec normalize64
           adjusted64 bare "" [john]
           None None None None None).
  - reflexivity.
  - reflexivity.
Defined.
End Samples.

(** * Further properties of the engine *)

Section Further.
Variable add : Q → Q → Q.

Local Abbreviation py_sum := (py_sum add).
Local Abbreviation add_rating := (add_rating add).
Local Abbreviation multi_body := (multi_body add).
Local Abbreviation multi_scan := (multi_scan add).
Local Abbreviation adjust := (adjust add).
Local Abbreviation multi_candidate := (multi_candidate add).

(** ** Loops, continued *)

Lemma trace_for_each_cons {A S} (x : A) l (body : A → S → M S) s :
  trace (for_each (x :: l) body s) =
  trace (body x s) ++
  match outcome (body x s) with
  | inl _ => []
  | inr s' => trace (for_each l body s')
  end.
Proof. simpl. apply trace_bind. Qed.

Lemma trace_for_each_app {A S} (l1 l2 : list A) (body : A → S → M S) s s1 :
  outcome (for_each l1 body s) = inr s1 →
  trace (for_each (l1 ++ l2) body s)
  = trace (for_each l1 body s) ++ trace (for_each l2 body s1).
Proof.
  revert s. induction l1 as [|x l1 IH]; intros s H.
  - injection H as <-. reflexivity.
  - rewrite <- app_comm_cons, !trace_for_each_cons.
    rewrite outcome_for_each_cons in H.
    destruct (outcome (body x s)) as [e|s']; [discriminate |].
    rewrite (IH _ H), app_assoc. reflexivity.
Qed.

Lemma trace_bind_Forall {A B} (P : event → Prop) (m : M A) (f : A → M B) :
  Forall P (trace m) → (∀ a, Forall P (trace (f a))) → Forall P (trace (m ≫= f)).
Proof.
  intros Hm Hf. rewrite trace_bind. apply Forall_app. split; [exact Hm |].
  destruct (outcome m); [constructor | apply Hf].
Qed.

Lemma trace_for_each_Forall {A S} (P : event → Prop) l (body : A → S → M S) s :
  (∀ x s, Forall P (trace (body x s))) → Forall P (trace (for_each l body s)).
Proof.
  intros H. revert s. induction l as [|x l IH]; intros s; [constructor |].
  cbn [for_each]. apply trace_bind_Forall; [apply H | apply IH].
Qed.

(** A loop whose body appends at most one item per step yields the initial
    items followed by one item for each element of a subsequence of the
    input, in order. *)
Lemma for_each_appends {A B} (Q : A → B → Prop) (body : A → list B → M (list B))
    (l : list A) (acc r : list B) :
  (∀ x acc acc', In x l → outcome (body x acc) = inr acc' →
     acc' = acc ∨ ∃ m, acc' = acc ++ [m] ∧ Q x m) →
  outcome (for_each l body acc) = inr r →
  ∃ xs more, r = acc ++ more ∧ sublist xs l ∧ Forall2 Q xs more.
Proof.
  revert acc. induction l as [|x l IH]; intros acc Hstep H.
  - injection H as <-. exists [], []. rewrite app_nil_r.
    repeat split; constructor.
  - rewrite outcome_for_each_cons in H.
    destruct (outcome (body x acc)) as [e|acc'] eqn:E; [discriminate |].
    destruct (IH acc') as (xs & more & -> & Hsub & HQ); [| exact H |].
    { intros y a a' Hy. apply Hstep. right. exact Hy. }
    destruct (Hstep x acc acc' (or_introl eq_refl) E) as [-> | (m & -> & Hm)].
    + exists xs, more. split; [reflexivity |]. split; [| exact HQ].
      apply sublist_cons, Hsub.
    + exists (x :: xs), (m :: more). rewrite <- app_assoc.
      split; [reflexivity |]. split; [apply sublist_skip, Hsub |].
      constructor; assumption.
Qed.

(** ** What a successful call returns *)

(** How a candidate relates to the record it was built from. *)
Lemma single_body_step matcher query attr_name threshold o acc acc' :
  outcome (single_body matcher query attr_name threshold o acc) = inr acc' →
  acc' = acc ∨ ∃ m, acc' = acc ++ [m] ∧ candidate_of matcher query [attr_name] threshold o m.
Proof.
  destruct (o !! attr_name) as [v|] eqn:Hv.
  - rewrite single_body_ok by eauto. unfold single_candidate. rewrite Hv. simpl.
    destruct (Qle_bool threshold (matcher query v)) eqn:E; intros [= <-].
    + right. eexists. split; [reflexivity |]. split; [reflexivity |].
      exists attr_name, v. cbn [attr match_ create_result].
      repeat split; try reflexivity; [left; reflexivity | exact Hv |].
      apply Qle_bool_iff, E.
    + left. apply app_nil_r.
  - rewrite single_body_missing by exact Hv. discriminate.
Qed.

Lemma partial_of_In matcher query o attributes p :
  In p (omap (partial_of matcher query o) attributes) →
  In (p_attr p) attributes
  ∧ ∃ v, o !! p_attr p = Some v ∧ v ≠ EmptyString ∧ p_match p = matcher query v.
Proof.
  rewrite In_omap. intros (a & Ha & Hp). unfold partial_of in Hp.
  destruct (o !! a) as [v|] eqn:Hv; [| discriminate]. simpl in Hp.
  destruct v as [|c v]; [discriminate |]. injection Hp as <-.
  split; [exact Ha |]. exists (String c v). cbn [p_attr p_match].
  repeat split; [exact Hv | discriminate].
Qed.

Lemma multi_body_step matcher query attributes weights threshold o acc acc' :
  outcome (multi_body matcher query attributes weights threshold o acc) = inr acc' →
  acc' = acc ∨ ∃ m, acc' = acc ++ [m] ∧ candidate_of matcher query attributes threshold o m.
Proof.
  rewrite multi_body_outcome.
  destruct (first_missing o attributes); [discriminate |]. cbv zeta.
  destruct (py_max p_match _) as [best|] eqn:Hmax; [| discriminate].
  destruct (Qle_bool threshold (p_match best)) eqn:E; [| intros [= <-]; left; reflexivity].
  destruct (weights !! p_attr best); [| discriminate].
  intros [= <-]. right. eexists. split; [reflexivity |].
  destruct (py_max_spec _ _ _ Hmax) as [Hin _].
  destruct (partial_of_In _ _ _ _ _ Hin) as (Ha & v & Hv & _ & Hm).
  split; [reflexivity |]. exists (p_attr best), v. cbn [attr match_ create_result].
  repeat split; try assumption. apply Qle_bool_iff, E.
Qed.

(** The second pass changes ratings only. *)
Lemma adjust_preserves adjusted_weights matches acc r :
  outcome (for_each matches
             (λ m done, w ← getitem adjusted_weights (attr m);
                        ret (done ++ [add_rating m w])) acc) = inr r →
  ∃ more, r = acc ++ more
          ∧ Forall2 (λ m m', data m' = data m ∧ match_ m' = match_ m
                             ∧ attr m' = attr m) matches more.
Proof.
  revert acc. induction matches as [|m ms IH]; intros acc H.
  - injection H as <-. exists []. rewrite app_nil_r. split; constructor.
  - rewrite outcome_for_each_cons, outcome_bind in H. unfold getitem in H.
    destruct (adjusted_weights !! attr m) as [w|]; [| discriminate].
    cbn [outcome ret snd] in H.
    destruct (IH _ H) as (more & -> & H2).
    exists (add_rating m w :: more). rewrite <- app_assoc.
    split; [reflexivity |]. constructor; [| exact H2]. repeat split.
Qed.

Lemma Forall2_data_map (Q : obj → result → Prop) xs ms :
  Forall2 (λ o m, data m = o ∧ Q o m) xs ms → map data ms = xs.
Proof.
  induction 1 as [|o m xs ms [H _] _ IH]; [reflexivity |].
  cbn [map]. rewrite H, IH. reflexivity.
Qed.

Lemma select_results_submseteq matches threshold limit :
  select_results matches threshold limit ⊆+ map data matches.
Proof.
  unfold select_results.
  change (map data) with (fmap (M := list) data).
  transitivity (data <$> sort_desc matches).
  - destruct (0 <? limit); [| reflexivity].
    apply fmap_submseteq, submseteq_take.
  - apply Permutation_submseteq, fmap_Permutation, sort_desc_perm.
Qed.

Lemma select_results_In matches threshold limit o :
  In o (select_results matches threshold limit) → ∃ m, In m matches ∧ data m = o.
Proof.
  intros H. apply list_elem_of_In in H.
  eapply elem_of_submseteq in H; [| apply select_results_submseteq].
  apply list_elem_of_In, List.in_map_iff in H as (m & Hm & Hin). eauto.
Qed.

Lemma select_results_nil threshold limit : select_results [] threshold limit = [].
Proof.
  unfold select_results. cbn [sort_desc].
  destruct (0 <? limit); [rewrite firstn_nil |]; reflexivity.
Qed.

Lemma select_results_limit matches threshold limit :
  0 < limit → Z.of_nat (length (select_results matches threshold limit)) ≤ limit.
Proof.
  intros H. unfold select_results. rewrite (proj2 (Z.ltb_lt _ _) H).
  rewrite length_map, length_firstn. lia.
Qed.

Section Results.
Variable tokenize : string → list string.
Variable normalize : list Q → list Q.
Variable generate_weights_from_matches : list result → gmap string Q.

Local Abbreviation run := (search add tokenize normalize generate_weights_from_matches).

(** Whatever path a successful call takes, its result is the selection over
    candidates built, in order, from a subsequence of the dataset. *)
Lemma search_success_candidates
    self query dataset attributes limit threshold weights matcher rs :
  let c := resolve self attributes limit threshold weights matcher in
  outcome (run self query dataset attributes limit threshold weights matcher)
  = inr rs →
  ∃ xs ms,
    rs = select_results ms (cfg_threshold c) (cfg_limit c)
    ∧ sublist xs dataset
    ∧ Forall2 (candidate_of (cfg_matcher c) query (default [] (cfg_attributes c))
                 (cfg_threshold c)) xs ms.
Proof.
  intros c. unfold search. fold c.
  destruct (cfg_attributes c) as [[|a attrs]|]; [discriminate | | discriminate].
  cbn [truth option_truthy list_truthy negb default].
  destruct (length (tokenize query) =? 0)%nat.
  { intros [= <-]. exists [], []. rewrite select_results_nil.
    split; [reflexivity | split; [apply sublist_nil_l | constructor]]. }
  destruct attrs as [|b attrs]; cbn [length Nat.eqb nth].
  - intros H. apply outcome_bind_inr in H as (ms & Hscan & H). injection H as <-.
    unfold single_scan in Hscan. rewrite outcome_scan in Hscan.
    apply (for_each_appends (candidate_of (cfg_matcher c) query [a] (cfg_threshold c)))
      in Hscan as (xs & more & -> & Hsub & HQ).
    + exists xs, more. split; [reflexivity | split; assumption].
    + intros o acc acc' _. apply single_body_step.
  - unfold multi_search. cbv zeta. intros H.
    apply outcome_bind_inr in H as (ms & Hscan & H).
    apply outcome_bind_inr in H as (ms' & Hadj & H). injection H as <-.
    unfold multi_scan in Hscan. rewrite outcome_scan in Hscan.
    apply (for_each_appends
             (candidate_of (cfg_matcher c) query (a :: b :: attrs) (cfg_threshold c)))
      in Hscan as (xs & more & -> & Hsub & HQ).
    2:{ intros o acc acc' _. apply multi_body_step. }
    apply adjust_preserves in Hadj as (more' & -> & Hpres).
    exists xs, more'. split; [reflexivity | split; [exact Hsub |]]. cbn [app] in *.
    clear -HQ Hpres. revert more' Hpres.
    induction HQ as [|o m xs ms Hm _ IH]; intros more' Hpres.
    + inversion Hpres. constructor.
    + inversion Hpres as [|? m' ? ms' (Hd & Hma & Hat) Hrest]; subst.
      constructor; [| apply IH, Hrest].
      destruct Hm as (Hdata & a' & v & Hin & Hv & Hmv & Hthr).
      split; [congruence |]. exists a', v. rewrite Hma.
      repeat split; assumption.
Qed.

(** X5. A successful call returns records of the dataset only, none more
    often than the dataset holds it; so at most as many as the dataset has,
    and at most [limit] when the resolved limit is positive. *)
Theorem search_results_from_dataset
    self query dataset attributes limit threshold weights matcher rs :
  let c := resolve self attributes limit threshold weights matcher in
  outcome (run self query dataset attributes limit threshold weights matcher)
  = inr rs →
  rs ⊆+ dataset
  ∧ (∀ o, In o rs → In o dataset)
  ∧ (length rs ≤ length dataset)%nat
  ∧ (0 < cfg_limit c → Z.of_nat (length rs) ≤ cfg_limit c).
Proof.
  intros c H. apply search_success_candidates in H as (xs & ms & -> & Hsub & HQ).
  fold c in HQ |- *.
  assert (Hin : select_results ms (cfg_threshold c) (cfg_limit c) ⊆+ dataset).
  { etransitivity; [apply select_results_submseteq |].
    rewrite (Forall2_data_map _ _ _ HQ). apply sublist_submseteq, Hsub. }
  split; [exact Hin |]. split; [| split].
  - intros o Ho. apply list_elem_of_In. eapply elem_of_submseteq; [| exact Hin].
    apply list_elem_of_In, Ho.
  - apply submseteq_length, Hin.
  - apply select_results_limit.
Qed.

(** X6. Every record that a successful call returns has a requested
    attribute whose value the matcher scores at least at the resolved
    threshold. *)
Theorem search_results_meet_threshold
    self query dataset attributes limit threshold weights matcher rs :
  let c := resolve self attributes limit threshold weights matcher in
  outcome (run self query dataset attributes limit threshold weights matcher)
  = inr rs →
  ∀ o, In o rs →
    ∃ a v, In a (default [] (cfg_attributes c)) ∧ o !! a = Some v
           ∧ (cfg_threshold c <= cfg_matcher c query v)%Q.
Proof.
  intros c H o Ho. apply search_success_candidates in H as (xs & ms & -> & _ & HQ).
  fold c in HQ, Ho.
  apply select_results_In in Ho as (m & Hm & <-).
  apply list_elem_of_In, list_elem_of_lookup in Hm as [i Hi].
  destruct (Forall2_lookup_r _ _ _ _ _ HQ Hi)
    as (x & _ & Hdata & a & v & Ha & Hv & Hmv & Hthr).
  exists a, v. rewrite Hdata, <- Hmv. repeat split; assumption.
Qed.

End Results.

(** ** Truncation *)

Lemma descending_app_le (l1 l2 : list result) k d :
  descending (l1 ++ l2) → In k l1 → In d l2 → (rating d <= rating k)%Q.
Proof.
  unfold descending. induction l1 as [|x l1 IH]; intros Hs Hk Hd; [destruct Hk |].
  rewrite <- app_comm_cons in Hs. apply StronglySorted_inv in Hs as [Hs Hx].
  destruct Hk as [<- | Hk]; [| apply IH; assumption].
  rewrite List.Forall_forall in Hx. apply Hx, List.in_or_app. right. exact Hd.
Qed.

(** X7. With a positive limit the records returned are those of the first
    [limit] candidates in descending order, and no candidate that is left out
    has a rating above that of a candidate that is kept. *)
Theorem select_results_keeps_best matches threshold limit :
  0 < limit →
  let kept := firstn (Z.to_nat limit) (sort_desc matches) in
  let dropped := skipn (Z.to_nat limit) (sort_desc matches) in
  select_results matches threshold limit = map data kept
  ∧ Permutation (kept ++ dropped) matches
  ∧ ∀ k d, In k kept → In d dropped → (rating d <= rating k)%Q.
Proof.
  intros Hl kept dropped. split; [| split].
  - unfold select_results. rewrite (proj2 (Z.ltb_lt _ _) Hl). reflexivity.
  - unfold kept, dropped. rewrite firstn_skipn. apply sort_desc_perm.
  - intros k d Hk Hd.
    pose proof (sort_desc_descending matches) as Hs.
    rewrite <- (firstn_skipn (Z.to_nat limit) (sort_desc matches)) in Hs.
    apply (descending_app_le _ _ _ _ Hs); assumption.
Qed.

(** ** Ties between attributes *)

Lemma py_max_fold_first {A} (key : A → Q) (rest bef mid : list A) (x : A) :
  (∀ p, In p bef → (key p < key x)%Q) →
  (∀ p, In p mid → (key p <= key x)%Q) →
  ∃ before after,
    bef ++ x :: mid ++ rest
    = before
      ++ fold_left (λ best y, if Qlt_bool (key best) (key y) then y else best) rest x
      :: after
    ∧ (∀ p, In p before →
         (key p < key (fold_left (λ best y, if Qlt_bool (key best) (key y) then y else best)
                         rest x))%Q)
    ∧ (∀ p, In p after →
         (key p <= key (fold_left (λ best y, if Qlt_bool (key best) (key y) then y else best)
                          rest x))%Q).
Proof.
  revert bef mid x. induction rest as [|y rest IH]; intros bef mid x Hbef Hmid; cbn [fold_left].
  - exists bef, mid. rewrite app_nil_r. auto.
  - destruct (Qlt_bool (key x) (key y)) eqn:E'; unfold Qlt_bool in E';
      destruct (Qle_bool (key y) (key x)) eqn:E; try discriminate; clear E'.
    + assert (Hlt : (key x < key y)%Q).
      { destruct (Qlt_le_dec (key x) (key y)) as [H | H]; [exact H |].
        apply Qle_bool_iff in H. congruence. }
      destruct (IH (bef ++ x :: mid) [] y) as (before & after & Heq & H1 & H2).
      { intros p Hp. apply List.in_app_or in Hp as [Hp | [<- | Hp]].
        - eapply Qlt_trans; [apply Hbef, Hp | exact Hlt].
        - exact Hlt.
        - eapply Qle_lt_trans; [apply Hmid, Hp | exact Hlt]. }
      { intros p []. }
      exists before, after. rewrite <- Heq, <- app_assoc. auto.
    + apply Qle_bool_iff in E.
      destruct (IH bef (mid ++ [y]) x) as (before & after & Heq & H1 & H2);
        [exact Hbef | |].
      { intros p Hp. apply List.in_app_or in Hp as [Hp | [<- | []]]; auto. }
      exists before, after. rewrite <- Heq, <- app_assoc. auto.
Qed.

(** [max] returns the first of the items with the greatest key. *)
Lemma py_max_first {A} (key : A → Q) (items : list A) (b : A) :
  py_max key items = Some b →
  ∃ before after,
    items = before ++ b :: after
    ∧ (∀ p, In p before → (key p < key b)%Q)
    ∧ (∀ p, In p after → (key p <= key b)%Q).
Proof.
  destruct items as [|x rest]; [discriminate |]. intros [= <-].
  apply (py_max_fold_first key rest [] [] x); intros p [].
Qed.

Lemma omap_sublist {A B} (f : A → option B) (g : B → A) (l : list A) :
  (∀ x y, f x = Some y → g y = x) → sublist (map g (omap f l)) l.
Proof.
  intros H. induction l as [|x l IH]; [constructor |].
  rewrite omap_cons. destruct (f x) as [y|] eqn:E.
  - cbn [map]. rewrite (H _ _ E). apply sublist_skip, IH.
  - apply sublist_cons, IH.
Qed.

(** X8. The match records of a record follow the attribute order, and the
    best one is the first with the greatest score: every match record of an
    earlier attribute scores strictly less, every later one at most as much.
    So when attributes tie, the earliest listed is the best attribute of the
    candidate. *)
Theorem best_attribute_first_on_ties matcher query attributes o pm best :
  outcome (collect_partial matcher query attributes o) = inr pm →
  py_max p_match pm = Some best →
  sublist (map p_attr pm) attributes
  ∧ ∃ earlier later,
      pm = earlier ++ best :: later
      ∧ (∀ p, In p earlier → (p_match p < p_match best)%Q)
      ∧ (∀ p, In p later → (p_match p <= p_match best)%Q).
Proof.
  intros Hpm Hmax. rewrite collect_partial_outcome in Hpm.
  destruct (first_missing o attributes); [discriminate |]. injection Hpm as <-.
  split; [| apply py_max_first, Hmax].
  apply omap_sublist. intros a p Hp. unfold partial_of in Hp.
  destruct (o !! a) as [v|]; [| discriminate]. simpl in Hp.
  destruct (String.length v =? 0)%nat; [discriminate |]. injection Hp as <-.
  reflexivity.
Qed.

(** ** The dictionary of static weights *)

Lemma py_dict_fold_snoc {V} (pairs : list (string * V)) (d : gmap string V) k v :
  fold_left (λ d kv, <[kv.1 := kv.2]> d) (pairs ++ [(k, v)]) d
  = <[k := v]> (fold_left (λ d kv, <[kv.1 := kv.2]> d) pairs d).
Proof. rewrite fold_left_app. reflexivity. Qed.

Lemma py_dict_lookup_last {V} (pairs later : list (string * V)) k v :
  ¬ In k (map fst later) →
  py_dict (pairs ++ (k, v) :: later) !! k = Some v.
Proof.
  unfold py_dict. revert pairs. induction later as [|[k' v'] later IH] using rev_ind;
    intros pairs Hk.
  - rewrite py_dict_fold_snoc. apply lookup_insert_eq.
  - rewrite app_comm_cons, app_assoc, py_dict_fold_snoc.
    rewrite List.map_app, List.in_app_iff in Hk. cbn in Hk.
    rewrite lookup_insert_ne by (intros ->; tauto).
    apply IH. tauto.
Qed.

(** X12. In the dictionary built from the attributes and the normalised
    weights, an attribute gets the weight at its last position in the
    attribute list; with distinct attributes that is the weight at its one
    position. *)
Theorem static_weight_positional (normalize : list Q → list Q) c
    (attributes : list string) i a w :
  attributes !! i = Some a →
  normalize (raw_weights attributes (cfg_weights c)) !! i = Some w →
  (∀ j, (i < j)%nat → attributes !! j ≠ Some a) →
  weights_of normalize c attributes !! a = Some w.
Proof.
  unfold weights_of.
  generalize (normalize (raw_weights attributes (cfg_weights c))). intros ws Ha Hw Hlast.
  assert (Hz : zip attributes ws !! i = Some (a, w)).
  { apply lookup_zip_with_Some. eauto. }
  apply list_elem_of_split_length in Hz as (pairs & later & Heq & Hlen).
  rewrite Heq. apply py_dict_lookup_last.
  intros Hin. apply List.in_map_iff in Hin as ([a' w'] & Hfst & Hin). cbn in Hfst. subst a'.
  apply list_elem_of_In, list_elem_of_lookup in Hin as [j Hj].
  assert (Hj' : zip attributes ws !! (length pairs + S j)%nat = Some (a, w')).
  { rewrite Heq, lookup_app_r by lia.
    replace (length pairs + S j - length pairs)%nat with (S j) by lia. exact Hj. }
  apply lookup_zip_with_Some in Hj' as (a'' & w'' & [= <- <-] & Hj' & _).
  apply (Hlast (length pairs + S j)%nat); [lia | exact Hj'].
Qed.

(** ** Construction *)


(** ** The second pass *)

Lemma adjust_outcome_acc adjusted_weights matches acc :
  outcome (for_each matches
             (λ m done, w ← getitem adjusted_weights (attr m);
                        ret (done ++ [add_rating m w])) acc)
  = match first_unweighted adjusted_weights matches with
    | Some a => inl (KeyError a)
    | None =>
        inr (acc ++ map (λ m, add_rating m (default 0%Q (adjusted_weights !! attr m)))
                      matches)
    end.
Proof.
  revert acc. induction matches as [|m ms IH]; intros acc.
  - cbn. rewrite app_nil_r. reflexivity.
  - rewrite outcome_for_each_cons, outcome_bind. unfold getitem. cbn [first_unweighted].
    destruct (adjusted_weights !! attr m) as [w|] eqn:E; [| reflexivity].
    cbn [outcome ret snd]. rewrite IH.
    destruct (first_unweighted adjusted_weights ms); [reflexivity |].
    cbn [map]. rewrite E, <- app_assoc. reflexivity.
Qed.

Lemma trace_adjust adjusted_weights matches : trace (adjust adjusted_weights matches) = [].
Proof.
  unfold adjust.
  assert (H : ∀ acc,
            trace (for_each matches
                     (λ m done, w ← getitem adjusted_weights (attr m);
                                ret (done ++ [add_rating m w])) acc) = []);
    [| apply H].
  induction matches as [|m ms IH]; intros acc; [reflexivity |].
  rewrite trace_for_each_cons, trace_bind, outcome_bind. unfold getitem.
  destruct (adjusted_weights !! attr m) as [w|]; [| reflexivity].
  cbn [trace outcome ret fst snd app]. apply IH.
Qed.

(** X3. The second pass keeps the candidates in order and changes ratings
    only: each rating grows by the adjusted weight of the candidate's
    attribute.  It raises [KeyError] for the first candidate whose attribute
    has no adjusted weight, and it reads nothing from the dataset. *)
Theorem adjust_outcome adjusted_weights matches :
  outcome (adjust adjusted_weights matches)
  = match first_unweighted adjusted_weights matches with
    | Some a => inl (KeyError a)
    | None =>
        inr (map (λ m, {| data := data m; match_ := match_ m;
                          rating := add (rating m)
                                      (default 0%Q (adjusted_weights !! attr m));
                          attr := attr m |}) matches)
    end
  ∧ trace (adjust adjusted_weights matches) = [].
Proof.
  split; [apply adjust_outcome_acc | apply trace_adjust].
Qed.


(** ** The multi-attribute scorer on well-formed records *)

Section MultiResult.
Variable tokenize : string → list string.
Variable normalize : list Q → list Q.
Variable generate_weights_from_matches : list result → gmap string Q.

Local Abbreviation run := (search add tokenize normalize generate_weights_from_matches).
Local Abbreviation weights_of := (weights_of normalize).

(** A record that the multi-attribute loop can score: it has every requested
    attribute and at least one non-empty value. *)
Lemma multi_body_candidate c query attrs o acc :
  (∀ ws, length (normalize ws) = length ws) →
  well_formed attrs o →
  outcome (multi_body (cfg_matcher c) query attrs (weights_of c attrs)
             (cfg_threshold c) o acc)
  = inr (acc ++ option_list (multi_candidate (cfg_matcher c) query attrs
                               (weights_of c attrs) (cfg_threshold c) o)).
Proof.
  intros Hnorm [Hall (a & v & Ha & Hv & Hne)].
  rewrite multi_body_outcome.
  rewrite (proj2 (first_missing_None o attrs) Hall). unfold multi_candidate. cbv zeta.
  set (pm := omap (partial_of (cfg_matcher c) query o) attrs).
  destruct (py_max p_match pm) as [best|] eqn:Hmax.
  2:{ apply py_max_None in Hmax.
      assert (In {| p_attr := a; p_match := cfg_matcher c query v |} pm) as Hin.
      { apply In_omap. exists a. split; [exact Ha |].
        unfold partial_of. rewrite Hv. simpl. destruct v; [congruence | reflexivity]. }
      rewrite Hmax in Hin. destruct Hin. }
  cbn [mbind option_bind].
  destruct (Qle_bool (cfg_threshold c) (p_match best)); [| rewrite app_nil_r; reflexivity].
  destruct (py_max_spec _ _ _ Hmax) as [Hin _]. apply partial_of_attr in Hin.
  destruct (py_dict_zip_lookup attrs
              (normalize (raw_weights attrs (cfg_weights c))) (p_attr best))
    as [w Hw]; [rewrite Hnorm; apply raw_weights_length | exact Hin |].
  unfold weights_of. rewrite Hw. reflexivity.
Qed.
Lemma multi_scan_candidates c query attrs dataset :
  (∀ ws, length (normalize ws) = length ws) →
  (∀ o, In o dataset → well_formed attrs o) →
  outcome (multi_scan (cfg_matcher c) query attrs (weights_of c attrs)
             (cfg_threshold c) dataset)
  = inr (omap (multi_candidate (cfg_matcher c) query attrs (weights_of c attrs)
                 (cfg_threshold c)) dataset).
Proof.
  intros Hnorm Hwf. unfold multi_scan. rewrite outcome_scan.
  rewrite (outcome_for_each_omap
             (multi_candidate (cfg_matcher c) query attrs (weights_of c attrs)
                (cfg_threshold c))); [reflexivity |].
  intros o acc Ho. apply multi_body_candidate; [exact Hnorm | apply Hwf, Ho].
Qed.

Lemma multi_candidate_Some matcher query attrs weights threshold o m :
  multi_candidate matcher query attrs weights threshold o = Some m →
  data m = o
  ∧ ∃ a v, In a attrs ∧ o !! a = Some v ∧ v ≠ EmptyString
           ∧ (threshold <= matcher query v)%Q.
Proof.
  unfold multi_candidate. cbv zeta.
  destruct (py_max p_match _) as [best|] eqn:Hmax; [| discriminate].
  cbn [mbind option_bind].
  destruct (Qle_bool threshold (p_match best)) eqn:E; [| discriminate].
  destruct (weights !! p_attr best); [| discriminate]. intros [= <-].
  split; [reflexivity |].
  destruct (py_max_spec _ _ _ Hmax) as [Hin _].
  destruct (partial_of_In _ _ _ _ _ Hin) as (Ha & v & Hv & Hne & Hm).
  exists (p_attr best), v. rewrite <- Hm.
  repeat split; try assumption. apply Qle_bool_iff, E.
Qed.

(** X2. Over records that expose every requested attribute and have a
    non-empty value, the multi-attribute scan completes; its candidates
    follow the dataset order, and a record has a candidate exactly when one
    of its non-empty requested values scores at least the threshold. *)
Theorem multi_attribute_threshold_filter c query (attrs : list string) dataset :
  (∀ ws, length (normalize ws) = length ws) →
  (∀ o, In o dataset → well_formed attrs o) →
  ∃ candidates,
    outcome (multi_scan (cfg_matcher c) query attrs (weights_of c attrs)
               (cfg_threshold c) dataset) = inr candidates
    ∧ sublist (map data candidates) dataset
    ∧ ∀ o, In o dataset →
        ((∃ m, In m candidates ∧ data m = o)
         ↔ ∃ a v, In a attrs ∧ o !! a = Some v ∧ v ≠ EmptyString
                  ∧ (cfg_threshold c <= cfg_matcher c query v)%Q).
Proof.
  intros Hnorm Hwf. eexists. split; [apply multi_scan_candidates; assumption |].
  split.
  - apply omap_sublist. intros o m Hm.
    apply multi_candidate_Some in Hm as [Hm _]. exact Hm.
  - intros o Ho. split.
    + intros (m & Hm & <-). apply In_omap in Hm as (o' & _ & Hm).
      apply multi_candidate_Some in Hm as [<- H]. exact H.
    + intros (a & v & Ha & Hv & Hne & Hthr).
      assert (Hin : In {| p_attr := a; p_match := cfg_matcher c query v |}
                      (omap (partial_of (cfg_matcher c) query o) attrs)).
      { apply In_omap. exists a. split; [exact Ha |].
        unfold partial_of. rewrite Hv. simpl. destruct v; [congruence | reflexivity]. }
      destruct (multi_candidate (cfg_matcher c) query attrs (weights_of c attrs)
                  (cfg_threshold c) o) as [m|] eqn:Hm.
      * exists m. split; [apply In_omap; eauto |].
        apply multi_candidate_Some in Hm as [Hm _]. exact Hm.
      * exfalso. unfold multi_candidate in Hm. cbv zeta in Hm.
        destruct (py_max p_match _) as [best|] eqn:Hmax;
          [| apply py_max_None in Hmax; rewrite Hmax in Hin; destruct Hin].
        cbn [mbind option_bind] in Hm.
        destruct (py_max_spec _ _ _ Hmax) as [Hbest Hge].
        assert (Hle : (cfg_threshold c <= p_match best)%Q).
        { eapply Qle_trans; [exact Hthr |]. apply (Hge _ Hin). }
        apply Qle_bool_iff in Hle. rewrite Hle in Hm.
        apply partial_of_attr in Hbest.
        destruct (py_dict_zip_lookup attrs
                    (normalize (raw_weights attrs (cfg_weights c))) (p_attr best))
          as [w Hw]; [rewrite Hnorm; apply raw_weights_length | exact Hbest |].
        unfold weights_of in Hm. rewrite Hw in Hm. discriminate.
Qed.


End MultiResult.

(** ** What a call accesses *)

Lemma trace_ret_Forall {A} (P : event → Prop) (a : A) : Forall P (trace (ret a)).
Proof. constructor. Qed.

Lemma trace_raise_Forall {A} (P : event → Prop) e : Forall P (trace (@raise A e)).
Proof. constructor. Qed.

Lemma trace_getattr_Forall {B} (P : event → Prop) o a (k : string → M B) :
  P (EvGetattr o a) →
  (∀ v, o !! a = Some v → Forall P (trace (k v))) →
  Forall P (trace (getattr o a ≫= k)).
Proof.
  intros Hev Hk. unfold getattr. rewrite trace_bind.
  apply Forall_app. split.
  - rewrite trace_bind. cbn [trace tell fst outcome snd].
    apply Forall_app. split; [repeat constructor; exact Hev |].
    destruct (o !! a); constructor.
  - rewrite outcome_tell. destruct (o !! a) as [v|] eqn:E; [| constructor].
    apply Hk. reflexivity.
Qed.

Lemma partial_body_sound matcher query o a acc :
  Forall (sound_event query) (trace (partial_body matcher query o a acc)).
Proof.
  unfold partial_body. apply trace_getattr_Forall; [exact I |]. intros v _.
  destruct v as [|ch v]; cbn [String.length Nat.eqb]; [constructor |].
  unfold call_matcher. apply trace_bind_Forall; [| intros; constructor].
  apply trace_bind_Forall; [| intros; constructor].
  repeat constructor. discriminate.
Qed.

Lemma multi_body_sound matcher query attributes weights threshold o acc :
  Forall (sound_event query)
    (trace (multi_body matcher query attributes weights threshold o acc)).
Proof.
  unfold multi_body. apply trace_bind_Forall; [repeat constructor |]. intros _.
  apply trace_bind_Forall.
  - apply trace_for_each_Forall. intros a pm. apply partial_body_sound.
  - intros pm. destruct (py_max p_match pm) as [best|]; [| constructor].
    cbv zeta. destruct (Qle_bool threshold (p_match best)); [| constructor].
    apply trace_bind_Forall; [| intros; constructor].
    unfold getitem. destruct (weights !! p_attr best); constructor.
Qed.

Section Accesses.
Variable tokenize : string → list string.
Variable normalize : list Q → list Q.
Variable generate_weights_from_matches : list result → gmap string Q.

Local Abbreviation run := (search add tokenize normalize generate_weights_from_matches).

(** X9. In the multi-attribute path the matcher is only ever called with the
    query as given and a non-empty attribute value, whether the call
    succeeds or fails. *)
Theorem multi_search_never_matches_empty
    self query dataset attributes limit threshold weights matcher :
  let c := resolve self attributes limit threshold weights matcher in
  length (default [] (cfg_attributes c)) ≠ 1%nat →
  Forall (sound_event query)
    (trace (run self query dataset attributes limit threshold weights matcher)).
Proof.
  intros c Hlen. unfold search. fold c.
  destruct (truth (cfg_attributes c)); cbn [negb]; [| constructor].
  destruct (length (tokenize query) =? 0)%nat; [constructor |].
  destruct (Nat.eqb_spec (length (default [] (cfg_attributes c))) 1);
    [contradiction |].
  unfold multi_search. cbv zeta. apply trace_bind_Forall.
  - unfold multi_scan. rewrite trace_scan.
    constructor; [exact I |]. apply Forall_app. split.
    + apply trace_for_each_Forall. intros o acc. apply multi_body_sound.
    + destruct (outcome (for_each dataset _ [])); repeat constructor.
  - intros ms. apply trace_bind_Forall; [| intros; constructor].
    rewrite trace_adjust. constructor.
Qed.
End Accesses.

Lemma trace_single_body matcher query attr_name threshold o acc :
  is_Some (o !! attr_name) →
  trace (single_body matcher query attr_name threshold o acc)
  = single_events query attr_name o.
Proof.
  intros [v Hv]. unfold single_body, single_events, getattr, call_matcher.
  rewrite Hv. cbn.
  destruct (Qle_bool threshold (matcher query v)); reflexivity.
Qed.

Lemma trace_single_body_missing matcher query attr_name threshold o acc :
  o !! attr_name = None →
  trace (single_body matcher query attr_name threshold o acc)
  = [EvNext o; EvGetattr o attr_name].
Proof.
  intros Hv. unfold single_body, getattr. rewrite Hv. reflexivity.
Qed.

Lemma trace_single_scan_acc matcher query attr_name threshold dataset acc :
  (∀ o, In o dataset → is_Some (o !! attr_name)) →
  trace (for_each dataset (single_body matcher query attr_name threshold) acc)
  = concat (map (single_events query attr_name) dataset).
Proof.
  revert acc. induction dataset as [|o ds IH]; intros acc H; [reflexivity |].
  rewrite trace_for_each_cons, trace_single_body, single_body_ok
    by (apply H; left; reflexivity).
  cbn [map concat]. rewrite IH by (intros; apply H; right; assumption).
  reflexivity.
Qed.

Lemma outcome_single_loop matcher query attr_name threshold dataset :
  (∀ o, In o dataset → is_Some (o !! attr_name)) →
  outcome (for_each dataset (single_body matcher query attr_name threshold) [])
  = inr (omap (single_candidate matcher query attr_name threshold) dataset).
Proof.
  intros H. rewrite <- outcome_scan. apply (single_scan_ok _ _ _ _ _ H).
Qed.

(** X10. The single-attribute scan over records that all have the attribute
    is one pass in dataset order: the iterator is taken, each record is
    yielded once, its attribute is read once and the matcher is called once
    on that value with the query as given, the iterator is found exhausted,
    and nothing else is accessed. *)
Theorem single_scan_one_pass matcher query attr_name threshold dataset :
  (∀ o, In o dataset → is_Some (o !! attr_name)) →
  trace (single_scan matcher query attr_name threshold dataset)
  = EvIter :: concat (map (single_events query attr_name) dataset) ++ [EvStop]
  ∧ length (trace (single_scan matcher query attr_name threshold dataset))
    = (3 * length dataset + 2)%nat.
Proof.
  intros H. unfold single_scan.
  rewrite trace_scan, trace_single_scan_acc, outcome_single_loop by exact H.
  split; [reflexivity |].
  cbn [length]. rewrite length_app. cbn [length].
  assert (Hlen : length (concat (map (single_events query attr_name) dataset))
                 = (3 * length dataset)%nat).
  { clear H. induction dataset as [|o ds IH]; [reflexivity |].
    cbn [map concat]. rewrite length_app, IH. cbn [single_events length]. lia. }
  rewrite Hlen. lia.
Qed.

(** X13. The single-attribute scan stops at the first record that lacks the
    attribute: the records before it are scanned as usual, the attribute of
    the offending record is looked up, and no later record is touched; the
    iterator is not driven to exhaustion. *)
Theorem single_scan_stops_at_missing matcher query attr_name threshold
    before o after :
  (∀ p, In p before → is_Some (p !! attr_name)) →
  o !! attr_name = None →
  single_scan matcher query attr_name threshold (before ++ o :: after)
  = (EvIter :: concat (map (single_events query attr_name) before)
       ++ [EvNext o; EvGetattr o attr_name],
     inl (AttributeError attr_name)).
Proof.
  intros Hbefore Ho. unfold single_scan.
  pose proof (outcome_single_loop matcher query attr_name threshold before Hbefore)
    as Hacc.
  assert (Hout : outcome (for_each (before ++ o :: after)
                            (single_body matcher query attr_name threshold) [])
                 = inl (AttributeError attr_name)).
  { eapply outcome_for_each_fail; [exact Hacc |]. apply single_body_missing, Ho. }
  assert (Htr : trace (scan (before ++ o :: after)
                         (single_body matcher query attr_name threshold))
                = EvIter :: concat (map (single_events query attr_name) before)
                  ++ [EvNext o; EvGetattr o attr_name]).
  { rewrite trace_scan, Hout, app_nil_r. f_equal.
    rewrite (trace_for_each_app _ _ _ _ _ Hacc), trace_single_scan_acc by exact Hbefore.
    f_equal. rewrite trace_for_each_cons, trace_single_body_missing by exact Ho.
    rewrite single_body_missing by exact Ho. apply app_nil_r. }
  assert (Hout' : outcome (scan (before ++ o :: after)
                             (single_body matcher query attr_name threshold))
                  = inl (AttributeError attr_name))
    by (rewrite outcome_scan; exact Hout).
  destruct (scan (before ++ o :: after) _) as [t r].
  cbn [trace outcome fst snd] in Htr, Hout'. subst. reflexivity.
Qed.
End Further.

(** ** The iteration over the dataset *)

Lemma iteration_app t1 t2 : iteration (t1 ++ t2) = (iteration t1 ++ iteration t2)%list.
Proof. apply List.filter_app. Qed.

Lemma iteration_quiet t : Forall quiet t → iteration t = [].
Proof.
  induction 1 as [|ev t Hev _ IH]; [reflexivity |].
  unfold iteration in *. cbn [List.filter]. rewrite Hev. exact IH.
Qed.

Lemma iteration_nexts l : iteration (map EvNext l) = map EvNext l.
Proof. induction l as [|o l IH]; [reflexivity |]. cbn. f_equal. exact IH. Qed.

Lemma for_each_iteration {St} (body : obj → St → M St) :
  (∀ o s, iteration (trace (body o s)) = [EvNext o]) →
  ∀ dataset s,
    (∃ s', outcome (for_each dataset body s) = inr s'
           ∧ iteration (trace (for_each dataset body s)) = map EvNext dataset)
    ∨ (∃ k e, (k < length dataset)%nat
              ∧ outcome (for_each dataset body s) = inl e
              ∧ iteration (trace (for_each dataset body s))
                = map EvNext (take (S k) dataset)).
Proof.
  intros Hbody. induction dataset as [|o ds IH]; intros s.
  - left. exists s. split; reflexivity.
  - rewrite outcome_for_each_cons, trace_for_each_cons, iteration_app, Hbody.
    destruct (outcome (body o s)) as [e|s1] eqn:E.
    + right. exists 0%nat, e. split; [cbn [length]; lia |].
      split; [reflexivity |]. reflexivity.
    + destruct (IH s1) as [(s' & Hout & Htr) | (k & e & Hk & Hout & Htr)].
      * left. exists s'. split; [exact Hout |]. rewrite Htr. reflexivity.
      * right. exists (S k), e. split; [cbn [length]; lia |].
        split; [exact Hout |]. rewrite Htr. reflexivity.
Qed.

Lemma quiet_getattr {B} o a (k : string → M B) :
  (∀ v, Forall quiet (trace (k v))) → Forall quiet (trace (getattr o a ≫= k)).
Proof.
  intros Hk. apply trace_getattr_Forall; [reflexivity |]. intros v _. apply Hk.
Qed.

Lemma quiet_call_matcher {B} matcher q v (k : Q → M B) :
  (∀ m, Forall quiet (trace (k m))) →
  Forall quiet (trace (call_matcher matcher q v ≫= k)).
Proof.
  intros Hk. apply trace_bind_Forall; [| exact Hk].
  unfold call_matcher. apply trace_bind_Forall; [| intros; constructor].
  repeat constructor.
Qed.

Lemma single_body_iteration matcher query attr_name threshold o acc :
  iteration (trace (single_body matcher query attr_name threshold o acc)) = [EvNext o].
Proof.
  unfold single_body. rewrite trace_bind, iteration_app.
  cbn [tell trace fst outcome snd]. change (iteration [EvNext o]) with [EvNext o].
  rewrite iteration_quiet; [reflexivity |].
  apply quiet_getattr. intros v. apply quiet_call_matcher. intros m.
  destruct (Qle_bool threshold m); constructor.
Qed.

Lemma multi_body_iteration add matcher query attributes weights threshold o acc :
  iteration (trace (multi_body add matcher query attributes weights threshold o acc))
  = [EvNext o].
Proof.
  unfold multi_body. rewrite trace_bind, iteration_app.
  cbn [tell trace fst outcome snd]. change (iteration [EvNext o]) with [EvNext o].
  rewrite iteration_quiet; [reflexivity |].
  apply trace_bind_Forall.
  - apply trace_for_each_Forall. intros a pm. unfold partial_body.
    apply quiet_getattr. intros v.
    destruct (String.length v =? 0)%nat; [constructor |].
    apply quiet_call_matcher. intros m. constructor.
  - intros pm. destruct (py_max p_match pm) as [best|]; [| constructor].
    cbv zeta. destruct (Qle_bool threshold (p_match best)); [| constructor].
    apply trace_bind_Forall; [| intros; constructor].
    unfold getitem. destruct (weights !! p_attr best); constructor.
Qed.

(** The iteration that a scan performs. *)
Lemma scan_iteration {St} (body : obj → list St → M (list St)) dataset :
  (∀ o s, iteration (trace (body o s)) = [EvNext o]) →
  (∃ ms, outcome (scan dataset body) = inr ms
         ∧ iteration (trace (scan dataset body))
           = EvIter :: (map EvNext dataset ++ [EvStop])%list)
  ∨ (∃ k e, (k < length dataset)%nat
            ∧ outcome (scan dataset body) = inl e
            ∧ iteration (trace (scan dataset body))
              = EvIter :: map EvNext (take (S k) dataset)).
Proof.
  intros Hbody. rewrite outcome_scan, trace_scan.
  change (iteration (EvIter :: ?t)) with (EvIter :: iteration t).
  rewrite iteration_app.
  destruct (for_each_iteration body Hbody dataset [])
    as [(ms & Hout & Htr) | (k & e & Hk & Hout & Htr)]; rewrite Hout, Htr.
  - left. exists ms. split; reflexivity.
  - right. exists k, e. split; [exact Hk |]. split; [reflexivity |].
    rewrite app_nil_r. reflexivity.
Qed.

Section Iteration.
Variable add : Q → Q → Q.
Variable tokenize : string → list string.
Variable normalize : list Q → list Q.
Variable generate_weights_from_matches : list result → gmap string Q.

Local Abbreviation run := (search add tokenize normalize generate_weights_from_matches).

(** X11. A call with resolvable attributes and a query that has terms
    iterates the dataset once, from the front: it takes the iterator before
    anything else, and then either every record is yielded in order and the
    iterator is found exhausted, or the call fails at some record and no
    later record is requested.  A call that returns has driven the iterator
    to exhaustion.  On an empty dataset the call takes the iterator, finds it
    exhausted and returns the empty list; no helper result is looked up. *)
Theorem search_iterates_once
    self query dataset attributes limit threshold weights matcher :
  let r := run self query dataset attributes limit threshold weights matcher in
  truth (py_or attributes (self_attributes self)) = true →
  tokenize query ≠ [] →
  hd_error (trace r) = Some EvIter
  ∧ (iteration (trace r) = EvIter :: (map EvNext dataset ++ [EvStop])%list
     ∨ ∃ k e, (k < length dataset)%nat ∧ outcome r = inl e
              ∧ iteration (trace r) = EvIter :: map EvNext (take (S k) dataset))
  ∧ (∀ rs, outcome r = inr rs →
       iteration (trace r) = EvIter :: (map EvNext dataset ++ [EvStop])%list)
  ∧ (dataset = [] → r = ([EvIter; EvStop], inr [])).
Proof.
  intros r Hattrs Htok.
  assert (Hshape :
    ∃ St (body : obj → list St → M (list St)) (k : list St → M (list obj)),
      r = (scan dataset body ≫= k)
      ∧ (∀ o s, iteration (trace (body o s)) = [EvNext o])
      ∧ (∀ ms, trace (k ms) = [])
      ∧ k [] = ret []).
  { subst r. unfold search, resolve. cbn [cfg_attributes]. rewrite Hattrs. cbn [negb].
    destruct (length (tokenize query) =? 0)%nat eqn:E.
    { apply Nat.eqb_eq, length_zero_iff_nil in E. contradiction. }
    destruct (length _ =? 1)%nat.
    - eexists _, _, _. split; [reflexivity |]. split; [apply single_body_iteration |].
      split; [reflexivity |]. cbv beta. rewrite select_results_nil. reflexivity.
    - unfold multi_search. cbv zeta. eexists _, _, _.
      split; [reflexivity |]. split; [apply multi_body_iteration |]. split.
      + intros ms. rewrite trace_bind, trace_adjust.
        destruct (outcome (adjust add _ ms)); reflexivity.
      + cbv beta. unfold adjust. cbn [for_each]. rewrite bind_ret.
        rewrite select_results_nil. reflexivity. }
  destruct Hshape as (St & body & k & -> & Hbody & Hk & Hnil).
  assert (Htr : trace (scan dataset body ≫= k) = trace (scan dataset body)).
  { rewrite trace_bind. destruct (outcome (scan dataset body));
      [| rewrite Hk]; apply app_nil_r. }
  rewrite Htr.
  split; [rewrite trace_scan; reflexivity |].
  assert (Hcases := scan_iteration body dataset Hbody).
  split; [| split].
  - destruct Hcases as [(ms & Hout & Hit) | (j & e & Hj & Hout & Hit)].
    + left. exact Hit.
    + right. exists j, e. split; [exact Hj |]. split; [| exact Hit].
      rewrite outcome_bind, Hout. reflexivity.
  - intros rs Hrs. destruct Hcases as [(ms & Hout & Hit) | (j & e & Hj & Hout & Hit)].
    + exact Hit.
    + rewrite outcome_bind, Hout in Hrs. discriminate.
  - intros ->. unfold scan. cbn [for_each]. 
    change (tell EvIter;; matches ← ret []; tell EvStop;; ret matches)
      with (@pair (list event) (exn + list St) [EvIter; EvStop] (inr [])).
    unfold mbind, M_bind, bind. rewrite Hnil. reflexivity.
Qed.
End Iteration.

(** ** The further properties on the sample data *)

Section MoreSamples.
Import Sample.
Local Open Scope string_scope.

Lemma search_results_from_dataset_witness :
  [john] ⊆+ [john; jane; johnny] ∧ (Z.of_nat (length [john]) ≤ 1)%Z.
Proof.
  destruct (search_results_from_dataset add64 tokenize_spec normalize64
              adjusted64 by_name "john"
              [john; jane; johnny] None None None None None [john])
    as (Hsub & _ & _ & Hlimit).
  - vm_compute. reflexivity.
  - split; [exact Hsub | apply Hlimit; reflexivity].
Defined.

Lemma search_results_meet_threshold_witness :
  ∃ a v, In a ["name"] ∧ john !! a = Some v ∧ (3 # 4 <= term_match "john" v)%Q.
Proof.
  apply (search_results_meet_threshold add64 tokenize_spec normalize64
           adjusted64 by_name "john"
           [john; jane; johnny] None None None None None [john]).
  - vm_compute. reflexivity.
  - left. reflexivity.
Defined.

Lemma search_iterates_once_witness :
  (∃ k e, (k < 3)%nat
          ∧ outcome (search_spec weighted "awesome" [item_a; nameless; item_b]
                       None None None None None) = inl e
          ∧ iteration (trace (search_spec weighted "awesome"
                                [item_a; nameless; item_b]
                                None None None None None))
            = EvIter :: map EvNext (take (S k) [item_a; nameless; item_b]))
  ∧ iteration (trace (search_spec weighted "awesome" [item_a; item_b]
                        None None None None None))
    = [EvIter; EvNext item_a; EvNext item_b; EvStop]
  ∧ search_spec weighted "awesome" [] None None None None None
    = ([EvIter; EvStop], inr []).
Proof.
  split; [| split].
  - destruct (search_iterates_once add64 tokenize_spec normalize64 adjusted64
                weighted "awesome" [item_a; nameless; item_b]
                None None None None None)
      as (_ & [Hall | Hfail] & _).
    + reflexivity.
    + vm_compute. discriminate.
    + vm_compute in Hall. discriminate.
    + exact Hfail.
  - destruct (search_iterates_once add64 tokenize_spec normalize64 adjusted64
                weighted "awesome" [item_a; item_b] None None None None None)
      as (_ & _ & Hok & _).
    + reflexivity.
    + vm_compute. discriminate.
    + apply (Hok [item_a; item_b]). vm_compute. reflexivity.
  - destruct (search_iterates_once add64 tokenize_spec normalize64 adjusted64
                weighted "awesome" [] None None None None None)
      as (_ & _ & _ & Hempty).
    + reflexivity.
    + vm_compute. discriminate.
    + apply Hempty. reflexivity.
Defined.

Lemma select_results_keeps_best_witness :
  select_results ranked 0%Q 2 = [john; johnny]
  ∧ ∀ k d, In k (firstn 2 (sort_desc ranked)) → In d (skipn 2 (sort_desc ranked)) →
           (rating d <= rating k)%Q.
Proof.
  destruct (select_results_keeps_best ranked 0%Q 2) as (Hsel & _ & Hbest).
  - reflexivity.
  - split; [rewrite Hsel; vm_compute; reflexivity | exact Hbest].
Defined.

Lemma best_attribute_first_on_ties_witness :
  sublist ["name"; "category"] ["name"; "category"]
  ∧ ∃ earlier later,
      [{| p_attr := "name"; p_match := 1%Q |};
       {| p_attr := "category"; p_match := 1%Q |}]
      = (earlier ++ {| p_attr := "name"; p_match := 1%Q |} :: later)%list
      ∧ (∀ p, In p earlier → (p_match p < 1)%Q)
      ∧ (∀ p, In p later → (p_match p <= 1)%Q).
Proof.
  apply (best_attribute_first_on_ties term_match "awesome" ["name"; "category"] twin
           [{| p_attr := "name"; p_match := 1%Q |};
            {| p_attr := "category"; p_match := 1%Q |}]
           {| p_attr := "name"; p_match := 1%Q |}).
  - vm_compute. reflexivity.
  - vm_compute. reflexivity.
Defined.

Lemma static_weight_positional_witness :
  weights_of normalize64 (resolve weighted None None None None None)
    ["name"; "category"] !! "category" = Some (div64 5 6).
Proof.
  apply (static_weight_positional normalize64 _ ["name"; "category"] 1%nat).
  - reflexivity.
  - vm_compute. reflexivity.
  - intros [|[|j]] Hj; [lia | lia | discriminate].
Defined.


Lemma sample_well_formed o :
  In o [item_a; item_b] → well_formed ["name"; "category"] o.
Proof.
  intros [<- | [<- | []]]; (split;
    [ intros a [<- | [<- | []]]; eexists; vm_compute; reflexivity
    | exists "name"; eexists; split; [left; reflexivity |];
      split; [vm_compute; reflexivity | discriminate] ]).
Defined.


Lemma normalize64_length ws : length (normalize64 ws) = length ws.
Proof. apply normalize_spec_length. Defined.

(** The adjusted weights are counted per attribute: two candidates by name
    and one by category give the floats of 2/3 and 1/3. *)
Example adjusted_weights_per_attribute :
  let matches := [create_result john 1%Q 1%Q "name";
                  create_result johnny 1%Q 1%Q "name";
                  create_result item_a 1%Q 1%Q "category"] in
  adjusted64 matches !! "name" = Some (div64 2 3)
  ∧ adjusted64 matches !! "category" = Some (div64 1 3)
  ∧ (Qabs (add64 (div64 2 3) (div64 1 3) - 1) <= tolerance)%Q.
Proof. cbv zeta. repeat split; try (vm_compute; reflexivity). vm_compute. discriminate. Qed.

Lemma multi_attribute_threshold_filter_witness :
  ∃ candidates,
    outcome (multi_scan add64 term_match "awesome" ["name"; "category"]
               (weights_of normalize64 (resolve weighted None None None None None)
                  ["name"; "category"])
               (3 # 4)%Q [item_a; item_b]) = inr candidates
    ∧ sublist (map data candidates) [item_a; item_b].
Proof.
  destruct (multi_attribute_threshold_filter add64 normalize64
              (resolve weighted None None None None None) "awesome"
              ["name"; "category"] [item_a; item_b])
    as (candidates & Hscan & Hsub & _).
  - apply normalize64_length.
  - apply sample_well_formed.
  - exists candidates. split; [exact Hscan | exact Hsub].
Defined.


Lemma multi_search_never_matches_empty_witness :
  Forall (sound_event "awesome")
    (trace (search_spec weighted "awesome" [item_a; blank; item_b]
              None None None None None)).
Proof.
  apply (multi_search_never_matches_empty add64 tokenize_spec normalize64
           adjusted64 weighted "awesome"
           [item_a; blank; item_b] None None None None None).
  vm_compute. discriminate.
Defined.

Lemma single_scan_one_pass_witness :
  trace (single_scan term_match "john" "name" (3 # 4)%Q [john; jane])
  = (EvIter :: concat (map (single_events "john" "name") [john; jane]) ++ [EvStop])%list
  ∧ length (trace (single_scan term_match "john" "name" (3 # 4)%Q [john; jane]))
    = (3 * length [john; jane] + 2)%nat.
Proof.
  apply single_scan_one_pass.
  intros o [<- | [<- | []]]; eexists; vm_compute; reflexivity.
Defined.

Lemma single_scan_stops_at_missing_witness :
  single_scan term_match "john" "name" (3 # 4)%Q ([john] ++ nameless :: [jane])%list
  = ((EvIter :: concat (map (single_events "john" "name") [john])
        ++ [EvNext nameless; EvGetattr nameless "name"])%list,
     inl (AttributeError "name")).
Proof.
  apply single_scan_stops_at_missing.
  - intros p [<- | []]. eexists. vm_compute. reflexivity.
  - vm_compute. reflexivity.
Defined.
End MoreSamples.
